(** * Visual-regression comparison pipeline (app.py): model and properties

    A shallow embedding of [app.py].  The program talks to the network, to a
    headless browser, to the file system and to image libraries; those
    collaborators are gathered in a record [World] of oracles, and every
    function of the program is a definition over an arbitrary [World].
    Python exceptions are values of [exn]; a computation returns a
    [result] together with the list of observable events it produced
    (requests issued, browsers started and quit, files written, lines
    printed), in the order the program produces them. *)

From Stdlib Require Import String Ascii List ZArith QArith Qround Bool Arith Lia.
From Stdlib Require Import Permutation DecimalString DecimalNat Lqa.
Import ListNotations.

Local Open Scope string_scope.
Local Open Scope list_scope.
Local Open Scope nat_scope.

(** String concatenation, as in Python's [+] and f-strings. *)
Infix "+++" := String.append (at level 60, right associativity).

(** ** Exceptions and results *)

(** The subclasses of Python's [Exception] the program can meet. *)
Inductive exn : Type :=
| KeyError (key : string)
| IndexError
| TypeError
| AttributeError
| ValueError
| OSError
| HTTPError (status : Z)
| RequestException
| WebDriverException
| TimeoutException
| CvError
| RuntimeError (msg : string).

Definition str_exn (e : exn) : string :=
  match e with
  | KeyError k => "'" +++ k +++ "'"
  | IndexError => "list index out of range"
  | TypeError => "argument is not iterable"
  | AttributeError => "object has no attribute 'decode'"
  | ValueError => "invalid value"
  | OSError => "os error"
  | HTTPError _ => "http error"
  | RequestException => "request failed"
  | WebDriverException => "webdriver error"
  | TimeoutException => "timeout"
  | CvError => "cv2 assertion failed"
  | RuntimeError m => m
  end.

Inductive result (A : Type) : Type :=
| Ok (a : A)
| Raise (e : exn).
Arguments Ok {A} a.
Arguments Raise {A} e.

Definition bytes : Type := list Byte.byte.

(** ** Table cells, rows and the data frame *)

(** A cell of the sheet: text, a float or an integer ([get_all_records]
    turns numeric cells into numbers; the similarity columns hold floats). *)
Inductive cell : Type :=
| CStr (s : string)
| CNum (q : Q)
| CInt (z : Z).

(** A row of the frame: column label to cell, in column order. *)
Definition Row : Type := list (string * cell).

Fixpoint row_get (row : Row) (col : string) : option cell :=
  match row with
  | [] => None
  | (c, v) :: rest => if String.eqb c col then Some v else row_get rest col
  end.

(** [row[col]] *)
Definition row_getitem (row : Row) (col : string) : result cell :=
  match row_get row col with
  | Some v => Ok v
  | None => Raise (KeyError col)
  end.

(** Writes a cell of a row: an existing column is overwritten in place, a
    new column is added after the others. *)
Fixpoint row_set (row : Row) (col : string) (v : cell) : Row :=
  match row with
  | [] => [(col, v)]
  | (c, old) :: rest =>
      if String.eqb c col then (c, v) :: rest else (c, old) :: row_set rest col v
  end.

(** A frame: index label and row, in frame order. *)
Definition DataFrame : Type := list (nat * Row).

(** [pd.DataFrame(data)]: the labels are 0, 1, 2, ... *)
Fixpoint frame_from (start : nat) (data : list Row) : DataFrame :=
  match data with
  | [] => []
  | r :: rest => (start, r) :: frame_from (S start) rest
  end.

Definition pd_DataFrame (data : list Row) : DataFrame := frame_from 0 data.

Definition iterrows (df : DataFrame) : list (nat * Row) := df.

(** [df.at[index, col] = v]: the row labelled [index] is updated in place;
    a label the frame does not have adds a row at the end. *)
Fixpoint at_set (df : DataFrame) (index : nat) (col : string) (v : cell) : DataFrame :=
  match df with
  | [] => [(index, [(col, v)])]
  | (i, r) :: rest =>
      if Nat.eqb i index then (i, row_set r col v) :: rest
      else (i, r) :: at_set rest index col v
  end.

Fixpoint frame_row (df : DataFrame) (index : nat) : option Row :=
  match df with
  | [] => None
  | (i, r) :: rest => if Nat.eqb i index then Some r else frame_row rest index
  end.

(** [df.at[index, col]]; [None] is a missing row or a cell never written. *)
Definition at_get (df : DataFrame) (index : nat) (col : string) : option cell :=
  match frame_row df index with
  | Some r => row_get r col
  | None => None
  end.

(** ** Events *)

(** Options handed to [webdriver.Chrome]. *)
Record ChromeOptions : Type := mkOptions {
  arguments : list string;
  mobileEmulation : option string
}.

Inductive event : Type :=
| Print (msg : string)
| HttpGet (url : string) (timeout : nat)
| ChromeStart (opts : ChromeOptions)
| DriverGet (opts : ChromeOptions) (url : string)
| WaitBody (opts : ChromeOptions) (timeout : nat)
| Screenshot (opts : ChromeOptions)
| ChromeQuit (opts : ChromeOptions)
| MakeDirs (dir : string)
| FileWrite (path : string) (data : bytes)
| WorksheetUpdate (df : DataFrame)
| ToExcel (path : string) (df : DataFrame).

(** ** The event-recording error monad *)

Definition M (A : Type) : Type := (result A * list event)%type.

Definition ret {A} (a : A) : M A := (Ok a, []).
Definition raise {A} (e : exn) : M A := (Raise e, []).
Definition lift {A} (r : result A) : M A := (r, []).
Definition emit (ev : event) : M unit := (Ok tt, [ev]).
Definition print (msg : string) : M unit := emit (Print msg).

Definition bind {A B} (m : M A) (k : A -> M B) : M B :=
  match m with
  | (Ok a, t) => let (r, t') := k a in (r, t ++ t')
  | (Raise e, t) => (Raise e, t)
  end.

Notation "x <- m ;; k" := (bind m (fun x => k))
  (at level 61, m at next level, right associativity).
Notation "m ;; k" := (bind m (fun _ => k))
  (at level 61, right associativity).

(** [try: m except Exception as e: h e] *)
Definition try_except {A} (m : M A) (h : exn -> M A) : M A :=
  match m with
  | (Ok a, t) => (Ok a, t)
  | (Raise e, t) => let (r, t') := h e in (r, t ++ t')
  end.

(** [try: m finally: fin]: [fin] runs on every exit path of [m]; its own
    exception, if any, replaces the outcome of [m]. *)
Definition try_finally {A} (m : M A) (fin : M unit) : M A :=
  let (r, t) := m in
  let (rf, tf) := fin in
  (match rf with Ok _ => r | Raise e => Raise e end, t ++ tf).

Definition value {A} (m : M A) : result A := fst m.
Definition trace {A} (m : M A) : list event := snd m.

(** A future holds the outcome of a task that ran to completion in a pool:
    [submit] runs the task (its events happen) and stores its outcome,
    [future_result] hands the value back or re-raises the stored exception.
    Tasks of one pool share nothing but the event list; their events are
    recorded task after task, in submission order, which is one of the
    interleavings the pool allows and gives every task the outcome it has in
    all of them. *)
Definition future (A : Type) : Type := result A.
Definition submit {A} (task : M A) : M (future A) := (Ok (value task), trace task).
Definition future_result {A} (f : future A) : M A := lift f.

(** ** Python strings and lists *)

(** [sub in s] *)
Fixpoint contains (sub s : string) : bool :=
  String.prefix sub s ||
  match s with
  | EmptyString => false
  | String _ s' => contains sub s'
  end.

(** [s.split(sep)] for a non-empty [sep]: [skip] counts the characters of a
    separator just matched that are still to be dropped, [cur] is the piece
    being read. *)
Fixpoint split_go (sep s : string) (skip : nat) (cur : string) : list string :=
  match s with
  | EmptyString => [cur]
  | String c s' =>
      match skip with
      | S k => split_go sep s' k cur
      | O =>
          if String.prefix sep s
          then cur :: split_go sep s' (String.length sep - 1) EmptyString
          else split_go sep s' 0 (cur +++ String c EmptyString)
      end
  end.

Definition split (sep s : string) : list string := split_go sep s 0 EmptyString.

(** [l[i]] *)
Definition list_getitem {A} (l : list A) (i : nat) : result A :=
  match nth_error l i with
  | Some a => Ok a
  | None => Raise IndexError
  end.

Definition nonempty (s : string) : bool :=
  match s with EmptyString => false | String _ _ => true end.

Definition string_of_nat (n : nat) : string :=
  NilEmpty.string_of_uint (Nat.to_uint n).

(** ** Images and the outside world *)

(** A decoded single-channel image: [shape0] rows of [shape1] pixels. *)
Record raster : Type := mkRaster {
  shape0 : nat;
  shape1 : nat;
  pixels : list Z
}.

(** A response obtained with [stream=True]: the status is known, the body
    is read when [content] is first used, and that read may raise. *)
Record Response : Type := mkResponse {
  status_code : Z;
  content : result bytes
}.

Record ParseResult : Type := mkParse {
  scheme : string;
  rest : string
}.

(** The collaborators of the program.  Each oracle gives the outcome of one
    external call on given arguments; floats are the rationals they denote. *)
Record World : Type := mkWorld {
  authorize : string -> result unit;
  get_all_records : string -> result (list Row);
  sheet_update : DataFrame -> result unit;
  excel_write : string -> DataFrame -> result unit;
  os_sep : string;
  urlparse : string -> result ParseResult;
  http_get : string -> nat -> result Response;
  chrome_launch : ChromeOptions -> result unit;
  page_load : ChromeOptions -> string -> result unit;
  body_wait : ChromeOptions -> string -> nat -> result unit;
  take_png : ChromeOptions -> string -> result bytes;
  os_makedirs : string -> result unit;
  file_write : string -> bytes -> result unit;
  imdecode : bytes -> result (option raster);
  cv2_resize : raster -> nat * nat -> result raster;
  ssim : raster -> raster -> result Q
}.

(** [round(x, 2)]: to the nearest multiple of 1/100, ties to even. *)
Definition round_half_even (q : Q) : Z :=
  let f := Qfloor q in
  match Qcompare (q - inject_Z f)%Q (1 # 2)%Q with
  | Lt => f
  | Gt => (f + 1)%Z
  | Eq => if Z.even f then f else (f + 1)%Z
  end.

Definition round2 (q : Q) : Q := Qred (Qmake (round_half_even (q * 100)%Q) 100).

(** ** Browser instances held along a run *)

Definition options_eqb (a b : ChromeOptions) : bool :=
  (if list_eq_dec string_dec (arguments a) (arguments b) then true else false) &&
  match mobileEmulation a, mobileEmulation b with
  | Some x, Some y => String.eqb x y
  | None, None => true
  | _, _ => false
  end.

Fixpoint release (d : ChromeOptions) (live : list ChromeOptions) : list ChromeOptions :=
  match live with
  | [] => []
  | x :: l => if options_eqb x d then l else x :: release d l
  end.

(** The browsers held after the events [t], starting from [live]. *)
Fixpoint holding (t : list event) (live : list ChromeOptions) : list ChromeOptions :=
  match t with
  | [] => live
  | ChromeStart d :: t' => holding t' (d :: live)
  | ChromeQuit d :: t' => holding t' (release d live)
  | _ :: t' => holding t' live
  end.

Definition browser_event (ev : event) : bool :=
  match ev with
  | ChromeStart _ | ChromeQuit _ => true
  | _ => false
  end.

Section Program.

Variable W : World.

(** *** validate_url (lines 20-22) *)

Definition as_str (c : cell) (e : exn) : result string :=
  match c with
  | CStr s => Ok s
  | CNum _ | CInt _ => Raise e
  end.

Definition validate_url (url : string) : result string :=
  match urlparse W url with
  | Ok parsed_url =>
      if negb (nonempty (scheme parsed_url)) then Ok ("https://" +++ url) else Ok url
  | Raise e => Raise e
  end.

(** [validate_url] called on a cell.  [urlparse] decodes an argument that is
    not a string, taking the empty string for one that is falsy: a zero
    parses as the empty URL, which has no scheme, and the f-string of line 22
    prints the number; any other number has no [decode] and raises. *)
Definition validate_url_cell (url : cell) : result string :=
  match url with
  | CStr s => validate_url s
  | CInt z => if Z.eqb z 0 then Ok "https://0" else Raise AttributeError
  | CNum q => if Qeq_bool q 0 then Ok "https://0.0" else Raise AttributeError
  end.

(** *** download_image_as_bytes (lines 24-33) *)

Definition requests_get (url : string) (timeout : nat) : M Response :=
  emit (HttpGet url timeout) ;; lift (http_get W url timeout).

Definition raise_for_status (r : Response) : M unit :=
  if ((400 <=? status_code r) && (status_code r <? 600))%Z
  then raise (HTTPError (status_code r))
  else ret tt.

(** Line 26: the file id of a link that mentions drive.google.com. *)
Definition file_id_of (drive_link : string) : M (option string) :=
  if contains "drive.google.com" drive_link
  then
    after <- lift (list_getitem (split "/d/" drive_link) 1) ;;
    id <- lift (list_getitem (split "/" after) 0) ;;
    ret (Some id)
  else ret None.

(** Line 27: [file_id] counts as present when it is a non-empty string. *)
Definition download_url_of (file_id : option string) (drive_link : string) : string :=
  match file_id with
  | Some id =>
      if nonempty id
      then "https://drive.google.com/uc?id=" +++ id +++ "&export=download"
      else drive_link
  | None => drive_link
  end.

Definition download_image_as_bytes (drive_link : cell) : M (option bytes) :=
  try_except
    (link <- lift (as_str drive_link TypeError) ;;
     file_id <- file_id_of link ;;
     response <- requests_get (download_url_of file_id link) 10 ;;
     raise_for_status response ;;
     body <- lift (content response) ;;
     ret (Some body))
    (fun e => print ("Error downloading image: " +++ str_exn e) ;; ret None).

(** *** capture_screenshot_as_bytes (lines 35-51) *)

Definition chrome_options (mobile_view : bool) : ChromeOptions :=
  mkOptions ["--headless"; "--window-size=1920,1080"]
            (if mobile_view then Some "iPhone X" else None).

(** [webdriver.Chrome(...)]: a browser is held from here on only when the
    launch succeeds. *)
Definition webdriver_Chrome (opts : ChromeOptions) : M ChromeOptions :=
  lift (chrome_launch W opts) ;; emit (ChromeStart opts) ;; ret opts.

Definition driver_get (driver : ChromeOptions) (url : string) : M unit :=
  emit (DriverGet driver url) ;; lift (page_load W driver url).

Definition wait_until_body (driver : ChromeOptions) (url : string) (timeout : nat) : M unit :=
  emit (WaitBody driver timeout) ;; lift (body_wait W driver url timeout).

Definition get_screenshot_as_png (driver : ChromeOptions) (url : string) : M bytes :=
  emit (Screenshot driver) ;; lift (take_png W driver url).

Definition driver_quit (driver : ChromeOptions) : M unit :=
  emit (ChromeQuit driver).

Definition capture_screenshot_as_bytes (url : string) (mobile_view : bool) : M (option bytes) :=
  driver <- webdriver_Chrome (chrome_options mobile_view) ;;
  try_finally
    (try_except
       (driver_get driver url ;;
        wait_until_body driver url 10 ;;
        screenshot <- get_screenshot_as_png driver url ;;
        ret (Some screenshot))
       (fun e => print ("Error capturing screenshot: " +++ str_exn e) ;; ret None))
    (driver_quit driver).

(** *** compare_images_bytes (lines 53-60) *)

Definition compare_images_bytes (img1_bytes img2_bytes : bytes) : M Q :=
  img1 <- lift (imdecode W img1_bytes) ;;
  img2 <- lift (imdecode W img2_bytes) ;;
  match img1, img2 with
  | Some i1, Some i2 =>
      img2_resized <- lift (cv2_resize W i2 (shape1 i1, shape0 i1)) ;;
      similarity_index <- lift (ssim W i1 img2_resized) ;;
      ret (round2 (similarity_index * 100)%Q)
  | _, _ => ret 0%Q
  end.

(** *** process_row (lines 73-113) *)

Definition os_path_join (a b : string) : string := a +++ os_sep W +++ b.

(** [os.makedirs(dir, exist_ok=True)] *)
Definition makedirs (dir : string) : M unit :=
  lift (os_makedirs W dir) ;; emit (MakeDirs dir).

(** [with open(path, "wb") as f: f.write(data)] *)
Definition open_write (path : string) (data : bytes) : M unit :=
  lift (file_write W path data) ;; emit (FileWrite path data).

(** Lines 98-104: [if site: write it]. *)
Definition save_if_captured (path : string) (site : option bytes) : M unit :=
  match site with
  | Some data => open_write path data
  | None => ret tt
  end.

(** Lines 107-108: [compare(ref, site) if ref and site else 0.0]. *)
Definition similarity_of (ref site : option bytes) : M Q :=
  match ref, site with
  | Some r, Some s => compare_images_bytes r s
  | _, _ => ret 0%Q
  end.

(** Lines 75-89: the three fields, the normalised URL, the four tasks and
    their join; the tuple is (mobile_ref, desktop_ref, mobile_site,
    desktop_site). *)
Definition acquire (row : Row)
  : M (option bytes * option bytes * option bytes * option bytes) :=
  mobile_link <- lift (row_getitem row "Mobile Response Link") ;;
  desktop_link <- lift (row_getitem row "Desktop Response Link") ;;
  url_cell <- lift (row_getitem row "Website URL") ;;
  website_url <- lift (validate_url_cell url_cell) ;;
  future_mobile_ref <- submit (download_image_as_bytes mobile_link) ;;
  future_desktop_ref <- submit (download_image_as_bytes desktop_link) ;;
  future_mobile_site <- submit (capture_screenshot_as_bytes website_url true) ;;
  future_desktop_site <- submit (capture_screenshot_as_bytes website_url false) ;;
  mobile_ref <- future_result future_mobile_ref ;;
  desktop_ref <- future_result future_desktop_ref ;;
  mobile_site <- future_result future_mobile_site ;;
  desktop_site <- future_result future_desktop_site ;;
  ret (mobile_ref, desktop_ref, mobile_site, desktop_site).

(** Lines 92-104: the screenshots that were captured are written to disk. *)
Definition persist (index : nat) (mobile_site desktop_site : option bytes) : M unit :=
  let output_dir := "website_screenshots" in
  makedirs output_dir ;;
  let mobile_site_path :=
    os_path_join output_dir ("mobile_" +++ string_of_nat index +++ ".png") in
  let desktop_site_path :=
    os_path_join output_dir ("desktop_" +++ string_of_nat index +++ ".png") in
  save_if_captured mobile_site_path mobile_site ;;
  save_if_captured desktop_site_path desktop_site.

(** Lines 107-110. *)
Definition score (mobile_ref desktop_ref mobile_site desktop_site : option bytes)
  : M (Q * Q) :=
  mobile_similarity <- similarity_of mobile_ref mobile_site ;;
  desktop_similarity <- similarity_of desktop_ref desktop_site ;;
  ret (mobile_similarity, desktop_similarity).

(** The body of the [try] block, lines 75-110. *)
Definition process_row_body (index : nat) (row : Row) : M (Q * Q) :=
  acquired <- acquire row ;;
  let '(mobile_ref, desktop_ref, mobile_site, desktop_site) := acquired in
  persist index mobile_site desktop_site ;;
  score mobile_ref desktop_ref mobile_site desktop_site.

Definition process_row (index : nat) (row : Row) : M (Q * Q) :=
  try_except
    (process_row_body index row)
    (fun e =>
       print ("Error processing row " +++ string_of_nat index +++ ": " +++ str_exn e) ;;
       ret (0%Q, 0%Q)).

(** *** process_google_sheet (lines 62-137) *)

(** Line 118: one future per row of the frame, with the index it stands for,
    in submission order. *)
Fixpoint submit_rows (rows : list (nat * Row)) : M (list (future (Q * Q) * nat)) :=
  match rows with
  | [] => ret []
  | (index, row) :: more =>
      f <- submit (process_row index row) ;;
      fs <- submit_rows more ;;
      ret ((f, index) :: fs)
  end.

(** [as_completed(futures)]: the futures in the order they finish;
    [order] lists their submission positions in that order. *)
Definition as_completed {A} (futures : list A) (order : list nat) : list A :=
  flat_map (fun k => match nth_error futures k with Some f => [f] | None => [] end) order.

(** Lines 119-124. *)
Fixpoint collect (done : list (future (Q * Q) * nat)) (results : list (nat * Q * Q))
  : M (list (nat * Q * Q)) :=
  match done with
  | [] => ret results
  | (f, index) :: more =>
      results' <-
        try_except
          (r <- future_result f ;; ret (results ++ [(index, fst r, snd r)]))
          (fun e =>
             print ("Error in row " +++ string_of_nat index +++ ": " +++ str_exn e) ;;
             ret results) ;;
      collect more results'
  end.

(** Lines 116-124. *)
Definition gather_results (df : DataFrame) (order : list nat) : M (list (nat * Q * Q)) :=
  futures <- submit_rows (iterrows df) ;;
  collect (as_completed futures order) [].

(** Lines 128-129, for one entry of [results]. *)
Definition write_result (df : DataFrame) (r : nat * Q * Q) : DataFrame :=
  let '(index, mobile_similarity, desktop_similarity) := r in
  at_set (at_set df index "Mobile Match %" (CNum mobile_similarity))
         index "Desktop Match %" (CNum desktop_similarity).

(** Lines 127-129. *)
Definition update_frame (df : DataFrame) (results : list (nat * Q * Q)) : DataFrame :=
  fold_left write_result results df.

(** Lines 63-65: the credentials are loaded and the client authorised. *)
Definition gspread_authorize (credentials_path : string) : M unit :=
  lift (authorize W credentials_path).

(** Lines 68-70. *)
Definition worksheet_get_all_records (sheet_url : string) : M (list Row) :=
  lift (get_all_records W sheet_url).

(** Line 132. *)
Definition worksheet_update (df : DataFrame) : M unit :=
  emit (WorksheetUpdate df) ;; lift (sheet_update W df).

(** Line 136. *)
Definition to_excel (df : DataFrame) (path : string) : M unit :=
  emit (ToExcel path df) ;; lift (excel_write W path df).

(** The whole run; [order] is the completion order the thread pool happens
    to produce. *)
Definition process_google_sheet (sheet_url credentials_path local_excel_path : string)
    (order : list nat) : M unit :=
  gspread_authorize credentials_path ;;
  print "Connecting to Google Sheet..." ;;
  data <- worksheet_get_all_records sheet_url ;;
  let df := pd_DataFrame data in
  results <- gather_results df order ;;
  let df := update_frame df results in
  worksheet_update df ;;
  print "Google Sheet updated successfully!" ;;
  to_excel df local_excel_path ;;
  print ("Results saved to " +++ local_excel_path).

End Program.

Arguments validate_url W url : simpl never.

(** ** Results of the coordinator *)

Definition result_index (r : nat * Q * Q) : nat := fst (fst r).

(** What the loop of lines 119-124 appends for one finished future. *)
Definition collected (fi : future (Q * Q) * nat) : list (nat * Q * Q) :=
  match fst fi with
  | Ok r => [(snd fi, fst r, snd r)]
  | Raise _ => []
  end.

(** ** Viewports of a row *)

Inductive viewport : Type := Mobile | Desktop.

Definition other (vp : viewport) : viewport :=
  match vp with Mobile => Desktop | Desktop => Mobile end.

(** What a row has acquired at the join of lines 86-89. *)
Definition Acquired : Type := (option bytes * option bytes * option bytes * option bytes)%type.

Definition reference_of (vp : viewport) (acquired : Acquired) : option bytes :=
  let '(mobile_ref, desktop_ref, _, _) := acquired in
  match vp with Mobile => mobile_ref | Desktop => desktop_ref end.

Definition capture_of (vp : viewport) (acquired : Acquired) : option bytes :=
  let '(_, _, mobile_site, desktop_site) := acquired in
  match vp with Mobile => mobile_site | Desktop => desktop_site end.

Definition similarity (vp : viewport) (r : Q * Q) : Q :=
  match vp with Mobile => fst r | Desktop => snd r end.

(** "The other viewport is scored normally": its similarity in the row's
    result is what the scorer returns on its reference and capture when both
    are there, and 0.0 when one is missing. *)
Definition scored_normally (W : World) (vp : viewport) (acquired : Acquired) (r : Q * Q) : Prop :=
  match reference_of vp acquired, capture_of vp acquired with
  | Some ref, Some site => value (compare_images_bytes W ref site) = Ok (similarity vp r)
  | _, _ => similarity vp r = 0%Q
  end.

(** Lines 43-45 in a browser that is running: the page is loaded, its body
    awaited, the screenshot taken; the first error ends the sequence. *)
Definition render_outcome (W : World) (driver : ChromeOptions) (url : string) : result bytes :=
  match page_load W driver url with
  | Raise e => Raise e
  | Ok _ =>
      match body_wait W driver url 10 with
      | Raise e => Raise e
      | Ok _ => take_png W driver url
      end
  end.

(** A capture hands back a value - a screenshot or [None] - and no
    exception. *)
Definition capture_returns (W : World) (url : string) (mobile_view : bool) : Prop :=
  exists o, value (capture_screenshot_as_bytes W url mobile_view) = Ok o.

(** The reading of the fetch-failure property that ignores the row boundary:
    a viewport whose reference is missing and whose capture is there scores
    0.0, and the other viewport is scored normally - on every row. *)
Definition viewports_independent (W : World) (index : nat) (row : Row) : Prop :=
  forall (acquired : Acquired) (vp : viewport) (site : bytes),
    value (acquire W row) = Ok acquired ->
    reference_of vp acquired = None ->
    capture_of vp acquired = Some site ->
    exists r,
      value (process_row W index row) = Ok r /\
      similarity vp r = 0%Q /\
      scored_normally W (other vp) acquired r.

(** The reading of "persistence failures are not fatal" under which a failed
    write leaves the scores as they would be without it. *)
Definition persistence_harmless (W : World) (index : nat) (row : Row) : Prop :=
  forall (mobile_ref desktop_ref mobile_site desktop_site : option bytes) (e : exn),
    value (acquire W row) = Ok (mobile_ref, desktop_ref, mobile_site, desktop_site) ->
    value (persist W index mobile_site desktop_site) = Raise e ->
    value (process_row W index row)
    = value (score W mobile_ref desktop_ref mobile_site desktop_site).

(** The reading of the self-score property that covers every image that
    decodes: scored against itself, it gets 100.0. *)
Definition self_score_is_100 (W : World) (img_bytes : bytes) : Prop :=
  forall img,
    imdecode W img_bytes = Ok (Some img) ->
    value (compare_images_bytes W img_bytes img_bytes) = Ok (100 # 1)%Q.

(** The reading of the normalisation property that covers every string:
    one of the two forms comes back. *)
Definition validate_url_returns (W : World) (url : string) : Prop :=
  validate_url W url = Ok ("https://" +++ url) \/ validate_url W url = Ok url.

(** ** Observations on runs *)

Definition is_http_get (ev : event) : bool :=
  match ev with HttpGet _ _ => true | _ => false end.

Definition is_print (ev : event) : bool :=
  match ev with Print _ => true | _ => false end.

(** Events that touch the sheet or the local export. *)
Definition is_sheet_event (ev : event) : bool :=
  match ev with WorksheetUpdate _ | ToExcel _ _ => true | _ => false end.

(** Line 95. *)
Definition mobile_site_path (W : World) (index : nat) : string :=
  os_path_join W "website_screenshots" ("mobile_" +++ string_of_nat index +++ ".png").

(** Line 96. *)
Definition desktop_site_path (W : World) (index : nat) : string :=
  os_path_join W "website_screenshots" ("desktop_" +++ string_of_nat index +++ ".png").

(** [sep] does not start at any position of [pre] in [pre + rest]. *)
Fixpoint no_early_match (sep pre rest : string) : bool :=
  match pre with
  | EmptyString => true
  | String c pre' =>
      negb (String.prefix sep (pre +++ rest)) && no_early_match sep pre' rest
  end.

(** The first character of a string, if any, is [c]. *)
Definition empty_or_starts_with (c : ascii) (s : string) : bool :=
  match s with
  | EmptyString => true
  | String x _ => Ascii.eqb x c
  end.

(** What line 132 and the lines after it do with the final frame. *)
Definition write_back_events (W : World) (local_excel_path : string) (df : DataFrame)
  : list event :=
  WorksheetUpdate df ::
  match sheet_update W df with
  | Raise _ => []
  | Ok _ =>
      Print "Google Sheet updated successfully!" ::
      ToExcel local_excel_path df ::
      match excel_write W local_excel_path df with
      | Raise _ => []
      | Ok _ => [Print ("Results saved to " +++ local_excel_path)]
      end
  end.

(** ** A concrete world

    One instance of every oracle, used to run the program on examples.  A
    [fault] switches on one failure of the environment. *)
Module Demo.

Inductive fault : Type :=
| NoFault
| DiskFull            (* writing a file raises *)
| NoDirectory         (* creating the output directory raises *)
| MobileLaunchFails   (* Chrome refuses the mobile emulation *)
| MobilePageFails     (* the page does not load in the emulated phone *)
| PageTimeout.        (* the body of the page never shows up *)

Definition is_alpha (c : ascii) : bool :=
  let n := nat_of_ascii c in
  ((65 <=? n) && (n <=? 90)) || ((97 <=? n) && (n <=? 122)).

Definition is_scheme_char (c : ascii) : bool :=
  let n := nat_of_ascii c in
  is_alpha c || ((48 <=? n) && (n <=? 57)) ||
  Ascii.eqb c "+" || Ascii.eqb c "-" || Ascii.eqb c ".".

(** Reads [scheme ":" rest] off the front of a string. *)
Fixpoint scheme_split (s acc : string) : option (string * string) :=
  match s with
  | EmptyString => None
  | String c s' =>
      if Ascii.eqb c ":" then Some (acc, s')
      else if is_scheme_char c then scheme_split s' (acc +++ String c EmptyString)
      else None
  end.

Definition lower (c : ascii) : ascii :=
  let n := nat_of_ascii c in
  if (65 <=? n) && (n <=? 90) then ascii_of_nat (n + 32) else c.

Fixpoint lower_string (s : string) : string :=
  match s with
  | EmptyString => EmptyString
  | String c s' => String (lower c) (lower_string s')
  end.

(** Leading spaces and control characters are dropped. *)
Fixpoint lstrip_c0 (s : string) : string :=
  match s with
  | EmptyString => EmptyString
  | String c s' => if nat_of_ascii c <=? 32 then lstrip_c0 s' else s
  end.

(** Tabs and line breaks are removed wherever they are. *)
Fixpoint drop_unsafe (s : string) : string :=
  match s with
  | EmptyString => EmptyString
  | String c s' =>
      let n := nat_of_ascii c in
      if (n =? 9) || (n =? 10) || (n =? 13) then drop_unsafe s'
      else String c (drop_unsafe s')
  end.

Fixpoint take_netloc (s : string) : string :=
  match s with
  | EmptyString => EmptyString
  | String c s' =>
      if Ascii.eqb c "/" || Ascii.eqb c "?" || Ascii.eqb c "#" then EmptyString
      else String c (take_netloc s')
  end.

(** The network location: what follows a leading "//", up to the path. *)
Definition netloc_of (after_scheme : string) : string :=
  match after_scheme with
  | String a (String b r) =>
      if Ascii.eqb a "/" && Ascii.eqb b "/" then take_netloc r else EmptyString
  | _ => EmptyString
  end.

(** The scheme part of [urllib.parse.urlparse]: the scheme is the leading
    run of scheme characters before the first ":", when the string starts
    with a letter; a network location with a bracket that has no partner is
    refused. *)
Definition py_urlparse (url : string) : result ParseResult :=
  let u := drop_unsafe (lstrip_c0 url) in
  let parts :=
    match u with
    | String c _ =>
        if is_alpha c
        then match scheme_split u EmptyString with
             | Some (sch, r) => (lower_string sch, r)
             | None => (EmptyString, u)
             end
        else (EmptyString, u)
    | EmptyString => (EmptyString, EmptyString)
    end in
  let netloc := netloc_of (snd parts) in
  if xorb (contains "[" netloc) (contains "]" netloc) then Raise ValueError
  else Ok (mkParse (fst parts) (snd parts)).

(** The bytes of a picture that decodes to an 8 x 8 white image. *)
Definition png : bytes := [Byte.x89; Byte.x50; Byte.x4e; Byte.x47].
Definition white : raster := mkRaster 8 8 (repeat 255%Z 64).

(** The bytes of a picture too small for the similarity window. *)
Definition dot_png : bytes := [Byte.x89; Byte.x50; Byte.x01].
Definition dot : raster := mkRaster 1 1 [0%Z].

Definition bytes_eqb (a b : bytes) : bool :=
  if list_eq_dec Byte.byte_eq_dec a b then true else false.

Definition raster_eqb (a b : raster) : bool :=
  Nat.eqb (shape0 a) (shape0 b) && Nat.eqb (shape1 a) (shape1 b) &&
  if list_eq_dec Z.eq_dec (pixels a) (pixels b) then true else false.

Definition demo_http (url : string) (timeout : nat) : result Response :=
  if String.eqb url "https://cdn.example/ref.png" then Ok (mkResponse 200 (Ok png))
  else if String.eqb url "https://cdn.example/dot.png" then Ok (mkResponse 200 (Ok dot_png))
  else if String.eqb url "https://cdn.example/gone.png" then Ok (mkResponse 404 (Ok []))
  else if String.eqb url "https://cdn.example/empty.png" then Ok (mkResponse 200 (Ok []))
  else if String.eqb url "https://cdn.example/cut.png"
       then Ok (mkResponse 200 (Raise RequestException))
  else if String.eqb url "https://drive.google.com/uc?id=FILE1&export=download"
       then Ok (mkResponse 200 (Ok png))
  else Raise RequestException.

(** An empty buffer is refused by an assertion of the decoder; bytes that
    are no picture decode to [None]. *)
Definition demo_imdecode (b : bytes) : result (option raster) :=
  match b with
  | [] => Raise CvError
  | _ =>
      if bytes_eqb b png then Ok (Some white)
      else if bytes_eqb b dot_png then Ok (Some dot)
      else Ok None
  end.

Definition demo_resize (img : raster) (dsize : nat * nat) : result raster :=
  let (w, h) := dsize in
  if Nat.eqb w 0 || Nat.eqb h 0 then Raise (RuntimeError "empty size")
  else if Nat.eqb w (shape1 img) && Nat.eqb h (shape0 img) then Ok img
  else Ok (mkRaster h w (repeat 0%Z (h * w))).

Definition demo_ssim (a b : raster) : result Q :=
  if (shape0 a <? 7) || (shape1 a <? 7) then Raise ValueError
  else if raster_eqb a b then Ok 1%Q else Ok (1 # 2)%Q.

Definition row_of (site mobile desktop : string) : Row :=
  [("Website URL", CStr site);
   ("Mobile Response Link", CStr mobile);
   ("Desktop Response Link", CStr desktop)].

(** Both references reachable and equal to what the browser shows. *)
Definition good_row : Row :=
  row_of "shop.example" "https://cdn.example/ref.png"
         "https://drive.google.com/file/d/FILE1/view".

(** The mobile reference cannot be fetched. *)
Definition half_row : Row :=
  row_of "shop.example" "https://cdn.example/gone.png" "https://cdn.example/ref.png".

(** The site is down: neither capture comes back. *)
Definition down_row : Row :=
  row_of "down.example" "https://cdn.example/ref.png" "https://cdn.example/ref.png".

Definition sheet : list Row := [good_row; half_row; down_row].

Definition world (f : fault) : World := {|
  authorize := fun _ => Ok tt;
  get_all_records := fun _ => Ok sheet;
  sheet_update := fun _ => Ok tt;
  excel_write := fun _ _ => Ok tt;
  os_sep := "/";
  urlparse := py_urlparse;
  http_get := demo_http;
  chrome_launch := fun opts =>
    match f, mobileEmulation opts with
    | MobileLaunchFails, Some _ => Raise WebDriverException
    | _, _ => Ok tt
    end;
  page_load := fun opts url =>
    if String.eqb url "https://down.example" then Raise WebDriverException
    else match f, mobileEmulation opts with
         | MobilePageFails, Some _ => Raise WebDriverException
         | _, _ => Ok tt
         end;
  body_wait := fun _ _ _ =>
    match f with PageTimeout => Raise TimeoutException | _ => Ok tt end;
  take_png := fun _ _ => Ok png;
  os_makedirs := fun _ =>
    match f with NoDirectory => Raise OSError | _ => Ok tt end;
  file_write := fun _ _ =>
    match f with DiskFull => Raise OSError | _ => Ok tt end;
  imdecode := demo_imdecode;
  cv2_resize := demo_resize;
  ssim := demo_ssim
|}.

(** A world like [world NoFault] whose sheet has no records. *)
Definition blank : World := {|
  authorize := fun _ => Ok tt;
  get_all_records := fun _ => Ok [];
  sheet_update := fun _ => Ok tt;
  excel_write := fun _ _ => Ok tt;
  os_sep := "/";
  urlparse := py_urlparse;
  http_get := demo_http;
  chrome_launch := fun _ => Ok tt;
  page_load := fun _ _ => Ok tt;
  body_wait := fun _ _ _ => Ok tt;
  take_png := fun _ _ => Ok png;
  os_makedirs := fun _ => Ok tt;
  file_write := fun _ _ => Ok tt;
  imdecode := demo_imdecode;
  cv2_resize := demo_resize;
  ssim := demo_ssim
|}.

End Demo.

(** ** Running the program on examples *)

Example validate_url_bare :
  validate_url (Demo.world Demo.NoFault) "shop.example" = Ok "https://shop.example".
Proof. reflexivity. Qed.

Example validate_url_http :
  validate_url (Demo.world Demo.NoFault) "http://shop.example" = Ok "http://shop.example".
Proof. reflexivity. Qed.

Example split_drive :
  split "/d/" "https://drive.google.com/file/d/FILE1/view"
  = ["https://drive.google.com/file"; "FILE1/view"].
Proof. reflexivity. Qed.

Example split_trailing : split "/" "a/b/" = ["a"; "b"; EmptyString].
Proof. reflexivity. Qed.

Example good_row_scores :
  value (process_row (Demo.world Demo.NoFault) 0 Demo.good_row) = Ok (100 # 1, 100 # 1)%Q.
Proof. vm_compute. reflexivity. Qed.

Example half_row_scores :
  value (process_row (Demo.world Demo.NoFault) 3 Demo.half_row) = Ok (0, 100 # 1)%Q.
Proof. vm_compute. reflexivity. Qed.

(** ** The monad: how values and traces compose *)

Section MonadFacts.

Context {A B : Type}.

Lemma value_bind (m : M A) (k : A -> M B) :
  value (bind m k) = match value m with Ok a => value (k a) | Raise e => Raise e end.
Proof.
  unfold value, bind. destruct m as [[a | e] t]; simpl; trivial.
  destruct (k a); reflexivity.
Qed.

Lemma trace_bind (m : M A) (k : A -> M B) :
  trace (bind m k) =
  match value m with Ok a => trace m ++ trace (k a) | Raise _ => trace m end.
Proof.
  unfold trace, value, bind. destruct m as [[a | e] t]; simpl; trivial.
  destruct (k a); reflexivity.
Qed.

Lemma value_try_except (m : M A) (h : exn -> M A) :
  value (try_except m h) = match value m with Ok a => Ok a | Raise e => value (h e) end.
Proof.
  unfold value, try_except. destruct m as [[a | e] t]; simpl; trivial.
  destruct (h e); reflexivity.
Qed.

Lemma trace_try_except (m : M A) (h : exn -> M A) :
  trace (try_except m h) =
  match value m with Ok _ => trace m | Raise e => trace m ++ trace (h e) end.
Proof.
  unfold trace, value, try_except. destruct m as [[a | e] t]; simpl; trivial.
  destruct (h e); reflexivity.
Qed.

Lemma value_emit_bind (ev : event) (k : unit -> M B) :
  value (bind (emit ev) k) = value (k tt).
Proof. unfold value, bind, emit. destruct (k tt); reflexivity. Qed.

Lemma value_print_bind (msg : string) (k : unit -> M B) :
  value (bind (print msg) k) = value (k tt).
Proof. apply value_emit_bind. Qed.

Lemma in_trace_bind (m : M A) (k : A -> M B) (a : A) (ev : event) :
  value m = Ok a -> In ev (trace (k a)) -> In ev (trace (bind m k)).
Proof.
  intros Hm Hin. rewrite trace_bind, Hm. apply in_or_app. now right.
Qed.

Lemma in_trace_emit_bind (ev : event) (k : unit -> M B) :
  In ev (trace (bind (emit ev) k)).
Proof. unfold trace, bind, emit. destruct (k tt). simpl. now left. Qed.

Lemma value_lift (r : result A) : value (lift r) = r.
Proof. reflexivity. Qed.

Lemma value_submit (task : M A) : value (submit task) = Ok (value task).
Proof. reflexivity. Qed.

End MonadFacts.

Lemma options_eqb_refl (d : ChromeOptions) : options_eqb d d = true.
Proof.
  unfold options_eqb. destruct (list_eq_dec string_dec (arguments d) (arguments d)) as [_ | n].
  - destruct (mobileEmulation d); simpl; trivial. apply String.eqb_refl.
  - now destruct n.
Qed.

Lemma release_head (d : ChromeOptions) (live : list ChromeOptions) :
  release d (d :: live) = live.
Proof. simpl. now rewrite options_eqb_refl. Qed.

Lemma holding_app (t1 t2 : list event) (live : list ChromeOptions) :
  holding (t1 ++ t2) live = holding t2 (holding t1 live).
Proof.
  revert live. induction t1 as [| ev t1 IH]; intros live; simpl; trivial.
  destruct ev; apply IH.
Qed.

Lemma holding_quiet (t : list event) (live : list ChromeOptions) :
  forallb (fun ev => negb (browser_event ev)) t = true -> holding t live = live.
Proof.
  induction t as [| ev t IH]; simpl; trivial.
  intros H. apply andb_prop in H as [Hev Ht].
  destruct ev; simpl in Hev; try discriminate; auto.
Qed.

(** ** The row boundary *)

(** C2. Whatever is raised while a row is processed - by a field access, a
    task joined from the pool, the persistence of a screenshot or the
    scorer - stops at the row boundary: [process_row] always returns a pair,
    the pair of the body when the body returns, and (0.0, 0.0) after printing
    the row's index and the error when the body raises. *)
Theorem process_row_never_raises (W : World) (index : nat) (row : Row) :
  (exists r, value (process_row W index row) = Ok r) /\
  match value (process_row_body W index row) with
  | Ok r => process_row W index row = process_row_body W index row
  | Raise e =>
      value (process_row W index row) = Ok (0, 0)%Q /\
      trace (process_row W index row) =
        trace (process_row_body W index row) ++
        [Print ("Error processing row " +++ string_of_nat index +++ ": " +++ str_exn e)]
  end.
Proof.
  unfold process_row.
  destruct (process_row_body W index row) as [[r | e] t] eqn:Hbody; simpl.
  - split; [exists r|]; reflexivity.
  - split; [exists (0, 0)%Q | split]; reflexivity.
Qed.

Example missing_field_row :
  process_row (Demo.world Demo.NoFault) 5 [("Website URL", CStr "shop.example")]
  = (Ok (0, 0)%Q, [Print "Error processing row 5: 'Mobile Response Link'"]).
Proof. vm_compute. reflexivity. Qed.

Example bad_url_row :
  value (process_row_body (Demo.world Demo.NoFault) 1
           (Demo.row_of "//[shop" "https://cdn.example/ref.png" "https://cdn.example/ref.png"))
  = Raise ValueError.
Proof. vm_compute. reflexivity. Qed.

Example scorer_error_row :
  value (process_row_body (Demo.world Demo.NoFault) 2
           (Demo.row_of "shop.example" "https://cdn.example/dot.png" "https://cdn.example/ref.png"))
  = Raise ValueError.
Proof. vm_compute. reflexivity. Qed.

(** ** The scorer *)

(** When both decoders return and one of them returns [None], the scorer
    returns 0.0 and calls neither the resizer nor the similarity index. *)
Lemma compare_images_bytes_none (W : World) (img1_bytes img2_bytes : bytes)
    (img1 img2 : option raster) :
  imdecode W img1_bytes = Ok img1 ->
  imdecode W img2_bytes = Ok img2 ->
  img1 = None \/ img2 = None ->
  compare_images_bytes W img1_bytes img2_bytes = ret 0%Q.
Proof.
  intros H1 H2 Hnone. unfold compare_images_bytes. rewrite H1, H2.
  destruct Hnone as [-> | ->]; [| destruct img1]; reflexivity.
Qed.

Example compare_junk :
  compare_images_bytes (Demo.world Demo.NoFault) Demo.png [Byte.x00] = ret 0%Q.
Proof. reflexivity. Qed.

(** C6, on the code.  A reference whose body is empty is fetched with
    success and is truthy, so it reaches the scorer; the decoder refuses an
    empty buffer with an error instead of returning [None], lines 54-55 do
    not catch it, and the scorer raises - whether the empty input is the
    first or the second, and even when the other input is one that decodes
    to [None].  The row ends at the row boundary with (0.0, 0.0). *)
Theorem compare_images_bytes_empty_buffer :
  value (download_image_as_bytes (Demo.world Demo.NoFault)
           (CStr "https://cdn.example/empty.png")) = Ok (Some []) /\
  imdecode (Demo.world Demo.NoFault) [] = Raise CvError /\
  value (compare_images_bytes (Demo.world Demo.NoFault) [] Demo.png) = Raise CvError /\
  value (compare_images_bytes (Demo.world Demo.NoFault) Demo.png []) = Raise CvError /\
  imdecode (Demo.world Demo.NoFault) [Byte.x00] = Ok None /\
  value (compare_images_bytes (Demo.world Demo.NoFault) [Byte.x00] []) = Raise CvError /\
  process_row (Demo.world Demo.NoFault) 6
    (Demo.row_of "shop.example" "https://cdn.example/empty.png" "https://cdn.example/ref.png")
  = (Ok (0, 0)%Q,
     trace (process_row_body (Demo.world Demo.NoFault) 6
              (Demo.row_of "shop.example" "https://cdn.example/empty.png"
                 "https://cdn.example/ref.png"))
     ++ [Print "Error processing row 6: cv2 assertion failed"]).
Proof. vm_compute. repeat split. Qed.

Lemma round_half_even_comp (x y : Q) : x == y -> round_half_even x = round_half_even y.
Proof.
  intros H. unfold round_half_even.
  rewrite (Qfloor_comp _ _ H).
  assert (E : (x - inject_Z (Qfloor y) == y - inject_Z (Qfloor y))%Q) by (rewrite H; reflexivity).
  rewrite (Qcompare_comp _ _ E (1 # 2)%Q (1 # 2)%Q (Qeq_refl _)).
  reflexivity.
Qed.

Lemma round2_comp (x y : Q) : x == y -> round2 x = round2 y.
Proof.
  intros H. unfold round2.
  rewrite (round_half_even_comp (x * 100)%Q (y * 100)%Q); trivial.
  rewrite H. reflexivity.
Qed.

Lemma round_half_even_error (x : Q) :
  (x - (1 # 2) <= inject_Z (round_half_even x) /\
   inject_Z (round_half_even x) <= x + (1 # 2))%Q.
Proof.
  unfold round_half_even.
  pose proof (Qfloor_le x) as Hlo. pose proof (Qlt_floor x) as Hhi.
  rewrite inject_Z_plus in Hhi. change (inject_Z 1) with 1%Q in Hhi.
  destruct (Qcompare (x - inject_Z (Qfloor x))%Q (1 # 2)%Q) eqn:Hcmp.
  - apply Qeq_alt in Hcmp.
    destruct (Z.even (Qfloor x));
      rewrite ?inject_Z_plus; change (inject_Z 1) with 1%Q; split; lra.
  - apply Qlt_alt in Hcmp. split; lra.
  - apply Qgt_alt in Hcmp.
    rewrite inject_Z_plus. change (inject_Z 1) with 1%Q. split; lra.
Qed.

(** Rounding to two decimals moves a number by at most 0.005. *)
Lemma round2_error (q : Q) : (q - (1 # 200) <= round2 q /\ round2 q <= q + (1 # 200))%Q.
Proof.
  unfold round2.
  destruct (round_half_even_error (q * 100)%Q) as [Hlo Hhi].
  set (n := round_half_even (q * 100)%Q) in *.
  assert (Hn : (Qred (n # 100) == inject_Z n * (1 # 100))%Q).
  { rewrite Qred_correct. unfold Qeq. simpl. lia. }
  rewrite Hn. split; lra.
Qed.

(** C7. An image that decodes, scored against itself.  The candidate is
    resized to its own width and height, which leaves it as it is; when the
    similarity index of the image with itself is s, the score is
    round(s * 100, 2), within 0.005 of s * 100 and exactly 100.0 for s = 1;
    when the similarity index raises instead - an image smaller than its
    window - the scorer raises that error. *)
Theorem compare_images_bytes_self (W : World) (img_bytes : bytes) (img : raster) :
  imdecode W img_bytes = Ok (Some img) ->
  cv2_resize W img (shape1 img, shape0 img) = Ok img ->
  match ssim W img img with
  | Ok s =>
      value (compare_images_bytes W img_bytes img_bytes) = Ok (round2 (s * 100)%Q) /\
      (s * 100 - (1 # 200) <= round2 (s * 100) /\
       round2 (s * 100) <= s * 100 + (1 # 200))%Q /\
      (s == 1 -> value (compare_images_bytes W img_bytes img_bytes) = Ok (100 # 1)%Q)
  | Raise e => value (compare_images_bytes W img_bytes img_bytes) = Raise e
  end.
Proof.
  intros Hdec Hresize.
  unfold compare_images_bytes.
  rewrite value_bind, value_lift, Hdec. cbv iota beta.
  rewrite value_bind, value_lift. cbv iota beta.
  rewrite value_bind, value_lift, Hresize. cbv iota beta.
  rewrite value_bind, value_lift.
  destruct (ssim W img img) as [s | e]; [| reflexivity].
  split; [reflexivity | split; [apply round2_error |]].
  intros Hone. cbn [value ret fst]. f_equal.
  rewrite (round2_comp (s * 100)%Q (1 * 100)%Q) by (rewrite Hone; reflexivity).
  reflexivity.
Qed.

Lemma compare_images_bytes_self_witness :
  match ssim (Demo.world Demo.NoFault) Demo.white Demo.white with
  | Ok s =>
      value (compare_images_bytes (Demo.world Demo.NoFault) Demo.png Demo.png)
        = Ok (round2 (s * 100)%Q) /\
      (s * 100 - (1 # 200) <= round2 (s * 100) /\
       round2 (s * 100) <= s * 100 + (1 # 200))%Q /\
      (s == 1 ->
       value (compare_images_bytes (Demo.world Demo.NoFault) Demo.png Demo.png)
         = Ok (100 # 1)%Q)
  | Raise e =>
      value (compare_images_bytes (Demo.world Demo.NoFault) Demo.png Demo.png) = Raise e
  end.
Proof.
  apply (compare_images_bytes_self (Demo.world Demo.NoFault) Demo.png Demo.white);
    reflexivity.
Defined.

(** An image of one pixel decodes, and scoring it against itself raises:
    the similarity index refuses an image smaller than its 7 x 7 window. *)
Lemma self_score_fails_small_image :
  ~ self_score_is_100 (Demo.world Demo.NoFault) Demo.dot_png.
Proof.
  intros H. specialize (H Demo.dot eq_refl). vm_compute in H. discriminate H.
Qed.

Example self_score_small_image :
  imdecode (Demo.world Demo.NoFault) Demo.dot_png = Ok (Some Demo.dot) /\
  value (compare_images_bytes (Demo.world Demo.NoFault) Demo.dot_png Demo.dot_png)
  = Raise ValueError.
Proof. vm_compute. split; reflexivity. Qed.

(** ** URL normalisation *)

(** C8. With [parsed_url] what [urlparse] makes of the string: the result is
    the string behind "https://" exactly when the scheme of [parsed_url] is
    empty, and the string itself exactly when it is not; a string that
    [urlparse] refuses makes the normalisation raise the same error, and
    neither form comes back. *)
Theorem validate_url_scheme (W : World) (url : string) :
  match urlparse W url with
  | Ok parsed_url =>
      (validate_url W url = Ok ("https://" +++ url) <-> scheme parsed_url = EmptyString) /\
      (validate_url W url = Ok url <-> scheme parsed_url <> EmptyString)
  | Raise e =>
      validate_url W url = Raise e /\ ~ validate_url_returns W url
  end.
Proof.
  unfold validate_url_returns, validate_url.
  destruct (urlparse W url) as [parsed_url | e].
  - assert (Hdiff : "https://" +++ url <> url).
    { intros H. apply (f_equal String.length) in H. simpl in H. lia. }
    destruct (scheme parsed_url) as [| c sch]; simpl.
    + split; split; trivial.
      * intros H. injection H as H. now apply Hdiff in H.
      * intros H. now destruct H.
    + split; split; trivial; try discriminate.
      intros H. injection H as H. symmetry in H. now apply Hdiff in H.
  - split; [reflexivity | intros [H | H]; discriminate H].
Qed.

(** A string with an unmatched bracket in its network location: the
    normalisation raises ValueError and returns neither form. *)
Lemma validate_url_returns_fails :
  ~ validate_url_returns (Demo.world Demo.NoFault) "//[shop".
Proof. intros [H | H]; vm_compute in H; discriminate H. Qed.

Example validate_url_bracket :
  validate_url (Demo.world Demo.NoFault) "//[shop" = Raise ValueError.
Proof. reflexivity. Qed.

Example validate_url_keeps_host_port :
  validate_url (Demo.world Demo.NoFault) "shop.example:8080/cart" = Ok "shop.example:8080/cart".
Proof. reflexivity. Qed.

(** ** The renderer *)

(** The guarded part of a capture (lines 42-49) never raises. *)
Lemma capture_after_launch (W : World) (url : string) (mobile_view : bool) :
  chrome_launch W (chrome_options mobile_view) = Ok tt ->
  exists (o : option bytes) (mid : list event),
    capture_screenshot_as_bytes W url mobile_view
    = (Ok o, ChromeStart (chrome_options mobile_view) :: mid
             ++ [ChromeQuit (chrome_options mobile_view)]) /\
    forallb (fun ev => negb (browser_event ev)) mid = true.
Proof.
  intros Hlaunch.
  set (d := chrome_options mobile_view) in *.
  unfold capture_screenshot_as_bytes, webdriver_Chrome, driver_get, wait_until_body,
    get_screenshot_as_png, driver_quit.
  fold d. rewrite Hlaunch.
  unfold try_finally, try_except, bind, lift, emit, print, ret. simpl.
  destruct (page_load W d url) as [[] | e1]; simpl.
  - destruct (body_wait W d url 10) as [[] | e2]; simpl.
    + destruct (take_png W d url) as [png | e3]; simpl.
      * exists (Some png), [DriverGet d url; WaitBody d 10; Screenshot d]. now split.
      * exists None,
          [DriverGet d url; WaitBody d 10; Screenshot d;
           Print ("Error capturing screenshot: " +++ str_exn e3)]. now split.
    + exists None,
        [DriverGet d url; WaitBody d 10;
         Print ("Error capturing screenshot: " +++ str_exn e2)]. now split.
  - exists None,
      [DriverGet d url; Print ("Error capturing screenshot: " +++ str_exn e1)]. now split.
Qed.

(** An error of the launch itself (line 41) leaves the function. *)
Lemma capture_launch_error (W : World) (url : string) (mobile_view : bool) (e : exn) :
  chrome_launch W (chrome_options mobile_view) = Raise e ->
  capture_screenshot_as_bytes W url mobile_view = (Raise e, []).
Proof.
  intros Hlaunch.
  unfold capture_screenshot_as_bytes, webdriver_Chrome. rewrite Hlaunch. reflexivity.
Qed.

(** C10. A capture either fails to start a browser - then it holds none and
    the error leaves the call - or starts one, and then quitting it is the
    last thing the call does, whether a screenshot came back or not; either
    way the browsers held after the call are those held before it. *)
Theorem capture_releases_browser (W : World) (url : string) (mobile_view : bool)
    (live : list ChromeOptions) :
  holding (trace (capture_screenshot_as_bytes W url mobile_view)) live = live /\
  match chrome_launch W (chrome_options mobile_view) with
  | Ok _ =>
      exists (o : option bytes) (mid : list event),
        capture_screenshot_as_bytes W url mobile_view
        = (Ok o, ChromeStart (chrome_options mobile_view) :: mid
                 ++ [ChromeQuit (chrome_options mobile_view)]) /\
        forallb (fun ev => negb (browser_event ev)) mid = true
  | Raise e => capture_screenshot_as_bytes W url mobile_view = (Raise e, [])
  end.
Proof.
  destruct (chrome_launch W (chrome_options mobile_view)) as [[] | e] eqn:Hlaunch.
  - destruct (capture_after_launch W url mobile_view Hlaunch) as (o & mid & Hrun & Hmid).
    split; [| now exists o, mid].
    rewrite Hrun. unfold trace. simpl.
    rewrite holding_app, (holding_quiet mid _ Hmid). simpl.
    now rewrite options_eqb_refl.
  - rewrite (capture_launch_error W url mobile_view e Hlaunch). now split.
Qed.

Example capture_timeout_trace :
  capture_screenshot_as_bytes (Demo.world Demo.PageTimeout) "https://shop.example" false
  = (Ok None,
     [ChromeStart (chrome_options false);
      DriverGet (chrome_options false) "https://shop.example";
      WaitBody (chrome_options false) 10;
      Print "Error capturing screenshot: timeout";
      ChromeQuit (chrome_options false)]).
Proof. reflexivity. Qed.

(** What a capture returns once the browser runs: the screenshot, or [None]
    for whatever was raised while rendering. *)
Lemma capture_value_after_launch (W : World) (url : string) (mobile_view : bool) :
  chrome_launch W (chrome_options mobile_view) = Ok tt ->
  value (capture_screenshot_as_bytes W url mobile_view)
  = Ok (match render_outcome W (chrome_options mobile_view) url with
        | Ok png => Some png
        | Raise _ => None
        end).
Proof.
  intros Hlaunch.
  set (d := chrome_options mobile_view) in *.
  unfold capture_screenshot_as_bytes, webdriver_Chrome, driver_get, wait_until_body,
    get_screenshot_as_png, driver_quit, render_outcome.
  fold d. rewrite Hlaunch.
  unfold try_finally, try_except, bind, lift, emit, print, ret, value. simpl.
  destruct (page_load W d url) as [[] | e1]; simpl; trivial.
  destruct (body_wait W d url 10) as [[] | e2]; simpl; trivial.
  destruct (take_png W d url) as [png | e3]; reflexivity.
Qed.

(** Chrome refuses to start under the mobile emulation: the capture raises
    instead of returning [None], the exception comes back at the join of
    line 88 and stops at the row boundary, and the row scores (0.0, 0.0)
    although the desktop reference and the desktop capture are both there
    and score 100.0 against each other. *)
Example launch_error_row :
  validate_url (Demo.world Demo.MobileLaunchFails) "shop.example"
    = Ok "https://shop.example" /\
  value (capture_screenshot_as_bytes (Demo.world Demo.MobileLaunchFails)
           "https://shop.example" true) = Raise WebDriverException /\
  value (capture_screenshot_as_bytes (Demo.world Demo.MobileLaunchFails)
           "https://shop.example" false) = Ok (Some Demo.png) /\
  value (download_image_as_bytes (Demo.world Demo.MobileLaunchFails)
           (CStr "https://drive.google.com/file/d/FILE1/view")) = Ok (Some Demo.png) /\
  value (compare_images_bytes (Demo.world Demo.MobileLaunchFails) Demo.png Demo.png)
    = Ok (100 # 1)%Q /\
  value (process_row (Demo.world Demo.MobileLaunchFails) 0 Demo.good_row) = Ok (0, 0)%Q /\
  value (process_row (Demo.world Demo.NoFault) 0 Demo.good_row) = Ok (100 # 1, 100 # 1)%Q.
Proof. vm_compute. repeat split. Qed.

(** A browser-launch error is not handed back as [None]: when Chrome
    refuses to start under the mobile emulation, the capture raises. *)
Lemma capture_returns_fails :
  ~ capture_returns (Demo.world Demo.MobileLaunchFails) "https://shop.example" true.
Proof. intros [o H]. vm_compute in H. discriminate H. Qed.

(** ** The asset fetcher *)

(** Whatever happens inside a download, it returns. *)
Lemma download_never_raises (W : World) (drive_link : cell) :
  exists o, value (download_image_as_bytes W drive_link) = Ok o.
Proof.
  unfold download_image_as_bytes. rewrite value_try_except.
  match goal with |- context [value ?m] => destruct (value m) as [o | e] end.
  - now exists o.
  - now exists None.
Qed.

(** A source that does not mention drive.google.com is requested as it is. *)
Lemma download_verbatim (W : World) (link : string) :
  contains "drive.google.com" link = false ->
  file_id_of link = ret None /\ download_url_of None link = link.
Proof. intros H. unfold file_id_of. rewrite H. now split. Qed.

(** A sharing link with a non-empty id after "/d/" is rewritten. *)
Example download_rewrites_sharing_link :
  download_image_as_bytes (Demo.world Demo.NoFault)
    (CStr "https://drive.google.com/file/d/FILE1/view")
  = (Ok (Some Demo.png),
     [HttpGet "https://drive.google.com/uc?id=FILE1&export=download" 10]).
Proof. reflexivity. Qed.

Lemma append_empty_r (s : string) : s +++ EmptyString = s.
Proof. induction s as [| c s IH]; simpl; [| rewrite IH]; reflexivity. Qed.

Lemma append_snoc (a : string) (c : ascii) (s : string) :
  (a +++ String c EmptyString) +++ s = a +++ String c s.
Proof. induction a as [| x a IH]; simpl; [| rewrite IH]; reflexivity. Qed.

(** Splitting on a separator that does not occur gives back the string. *)
Lemma split_go_absent (sep s cur : string) :
  contains sep s = false -> split_go sep s 0 cur = [cur +++ s].
Proof.
  revert cur. induction s as [| c s IH]; intros cur H.
  - simpl. now rewrite append_empty_r.
  - cbn [contains] in H. apply orb_false_elim in H as [Hprefix Hrest].
    cbn [split_go]. rewrite Hprefix, (IH _ Hrest). now rewrite append_snoc.
Qed.

(** Every link that mentions drive.google.com and has no "/d/" is given up
    before any request. *)
Lemma download_without_d (W : World) (link : string) :
  contains "drive.google.com" link = true ->
  contains "/d/" link = false ->
  download_image_as_bytes W (CStr link)
  = (Ok None, [Print "Error downloading image: list index out of range"]).
Proof.
  intros Hdrive Hd.
  unfold download_image_as_bytes, file_id_of, split, as_str.
  unfold bind at 1. unfold lift at 1. simpl.
  rewrite Hdrive, (split_go_absent _ _ _ Hd). reflexivity.
Qed.

(** C9, on the code.  A drive.google.com link without "/d/": the split has
    one piece, taking piece 1 raises IndexError inside the [try], and the
    download returns [None] with no request issued - the link is neither
    rewritten nor used as it is. *)
Theorem download_drive_link_without_d :
  contains "drive.google.com" "https://drive.google.com/open?id=FILE1" = true /\
  split "/d/" "https://drive.google.com/open?id=FILE1"
    = ["https://drive.google.com/open?id=FILE1"] /\
  value (file_id_of "https://drive.google.com/open?id=FILE1") = Raise IndexError /\
  download_image_as_bytes (Demo.world Demo.NoFault)
    (CStr "https://drive.google.com/open?id=FILE1")
  = (Ok None, [Print "Error downloading image: list index out of range"]).
Proof. vm_compute. repeat split. Qed.

(** ** The row processor *)

Lemma value_process_row_body (W : World) (index : nat) (row : Row)
    (mobile_ref desktop_ref mobile_site desktop_site : option bytes) :
  value (acquire W row) = Ok (mobile_ref, desktop_ref, mobile_site, desktop_site) ->
  value (process_row_body W index row) =
  match value (persist W index mobile_site desktop_site) with
  | Ok _ => value (score W mobile_ref desktop_ref mobile_site desktop_site)
  | Raise e => Raise e
  end.
Proof.
  intros Hacq. unfold process_row_body.
  rewrite value_bind, Hacq. now rewrite value_bind.
Qed.

Lemma value_process_row (W : World) (index : nat) (row : Row) :
  value (process_row W index row) =
  match value (process_row_body W index row) with
  | Ok r => Ok r
  | Raise _ => Ok (0, 0)%Q
  end.
Proof.
  unfold process_row. rewrite value_try_except.
  destruct (value (process_row_body W index row)); reflexivity.
Qed.

Lemma value_score (W : World) (mobile_ref desktop_ref mobile_site desktop_site : option bytes) :
  value (score W mobile_ref desktop_ref mobile_site desktop_site) =
  match value (similarity_of W mobile_ref mobile_site) with
  | Ok m =>
      match value (similarity_of W desktop_ref desktop_site) with
      | Ok d => Ok (m, d)
      | Raise e => Raise e
      end
  | Raise e => Raise e
  end.
Proof.
  unfold score. rewrite value_bind.
  destruct (value (similarity_of W mobile_ref mobile_site)); trivial.
  rewrite value_bind.
  destruct (value (similarity_of W desktop_ref desktop_site)); reflexivity.
Qed.

(** What a row has acquired is what its four tasks returned. *)
Lemma acquire_inv (W : World) (row : Row)
    (mobile_ref desktop_ref mobile_site desktop_site : option bytes) :
  value (acquire W row) = Ok (mobile_ref, desktop_ref, mobile_site, desktop_site) ->
  exists (mobile_link desktop_link url_cell : cell) (website_url : string),
    row_getitem row "Mobile Response Link" = Ok mobile_link /\
    row_getitem row "Desktop Response Link" = Ok desktop_link /\
    row_getitem row "Website URL" = Ok url_cell /\
    validate_url_cell W url_cell = Ok website_url /\
    value (download_image_as_bytes W mobile_link) = Ok mobile_ref /\
    value (download_image_as_bytes W desktop_link) = Ok desktop_ref /\
    value (capture_screenshot_as_bytes W website_url true) = Ok mobile_site /\
    value (capture_screenshot_as_bytes W website_url false) = Ok desktop_site.
Proof.
  unfold acquire. intros H.
  rewrite value_bind, value_lift in H.
  destruct (row_getitem row "Mobile Response Link") as [mobile_link | ?] eqn:E1;
    [| discriminate].
  rewrite value_bind, value_lift in H.
  destruct (row_getitem row "Desktop Response Link") as [desktop_link | ?] eqn:E2;
    [| discriminate].
  rewrite value_bind, value_lift in H.
  destruct (row_getitem row "Website URL") as [url_cell | ?] eqn:E3; [| discriminate].
  rewrite value_bind, value_lift in H.
  destruct (validate_url_cell W url_cell) as [website_url | ?] eqn:E4; [| discriminate].
  do 4 (rewrite value_bind, value_submit in H).
  unfold future_result in H.
  rewrite value_bind, value_lift in H.
  destruct (value (download_image_as_bytes W mobile_link)) as [a |] eqn:E5; [| discriminate].
  rewrite value_bind, value_lift in H.
  destruct (value (download_image_as_bytes W desktop_link)) as [b |] eqn:E6; [| discriminate].
  rewrite value_bind, value_lift in H.
  destruct (value (capture_screenshot_as_bytes W website_url true)) as [c |] eqn:E7;
    [| discriminate].
  rewrite value_bind, value_lift in H.
  destruct (value (capture_screenshot_as_bytes W website_url false)) as [d |] eqn:E8;
    [| discriminate].
  injection H as -> -> -> ->.
  exists mobile_link, desktop_link, url_cell, website_url. now repeat split.
Qed.

(** A viewport that lacks its reference or its capture scores 0.0; the
    other one is scored normally when the body of the row returns, and
    scores 0.0 too when an error reaches the row boundary. *)
Lemma viewport_without_pair (W : World) (index : nat) (row : Row)
    (acquired : Acquired) (vp : viewport) :
  value (acquire W row) = Ok acquired ->
  reference_of vp acquired = None \/ capture_of vp acquired = None ->
  exists r,
    value (process_row W index row) = Ok r /\
    similarity vp r = 0%Q /\
    match value (process_row_body W index row) with
    | Ok _ => scored_normally W (other vp) acquired r
    | Raise _ => similarity (other vp) r = 0%Q
    end.
Proof.
  destruct acquired as [[[mobile_ref desktop_ref] mobile_site] desktop_site].
  intros Hacq Hmissing.
  rewrite value_process_row, (value_process_row_body W index row _ _ _ _ Hacq).
  destruct (value (persist W index mobile_site desktop_site)) as [[] | e].
  2: { exists (0, 0)%Q. destruct vp; now repeat split. }
  rewrite value_score. unfold scored_normally.
  destruct vp; cbn [reference_of capture_of other similarity] in *.
  - assert (Hzero : value (similarity_of W mobile_ref mobile_site) = Ok 0%Q).
    { destruct Hmissing as [-> | ->]; [| destruct mobile_ref]; reflexivity. }
    rewrite Hzero.
    destruct desktop_ref as [ref |], desktop_site as [dsite |]; simpl;
      try (exists (0, 0)%Q; now repeat split).
    destruct (value (compare_images_bytes W ref dsite)) as [d | e] eqn:Hd.
    + exists (0%Q, d). now repeat split.
    + exists (0, 0)%Q. now repeat split.
  - assert (Hzero : value (similarity_of W desktop_ref desktop_site) = Ok 0%Q).
    { destruct Hmissing as [-> | ->]; [| destruct desktop_ref]; reflexivity. }
    rewrite Hzero.
    destruct mobile_ref as [ref |], mobile_site as [msite |]; simpl;
      try (exists (0, 0)%Q; now repeat split).
    destruct (value (compare_images_bytes W ref msite)) as [m | e] eqn:Hm.
    + exists (m, 0%Q). now repeat split.
    + exists (0, 0)%Q. now repeat split.
Qed.

(** C3. A viewport whose reference could not be fetched while its capture
    came back scores 0.0 on every such row.  The other viewport is scored
    normally when the body of the row returns; when an error reaches the row
    boundary instead, the other viewport scores 0.0 as well. *)
Theorem fetch_failure_viewport (W : World) (index : nat) (row : Row)
    (acquired : Acquired) (vp : viewport) (site : bytes) :
  value (acquire W row) = Ok acquired ->
  reference_of vp acquired = None ->
  capture_of vp acquired = Some site ->
  exists r,
    value (process_row W index row) = Ok r /\
    similarity vp r = 0%Q /\
    match value (process_row_body W index row) with
    | Ok _ => scored_normally W (other vp) acquired r
    | Raise _ => similarity (other vp) r = 0%Q
    end.
Proof.
  intros Hacq Href _. apply viewport_without_pair; auto.
Qed.

(** C4. Once the browser runs, whatever is raised while rendering
    (loading the page, waiting for its body, taking the screenshot) comes
    back from the capture as [None], not as an exception.  A row whose
    capture for one viewport is [None] scores 0.0 for that viewport; the
    other viewport is scored normally when the body of the row returns, and
    scores 0.0 too when an error reaches the row boundary. *)
Theorem render_failure_viewport (W : World) (index : nat) (row : Row)
    (acquired : Acquired) (vp : viewport) :
  value (acquire W row) = Ok acquired ->
  capture_of vp acquired = None ->
  (forall url mobile_view,
     chrome_launch W (chrome_options mobile_view) = Ok tt ->
     value (capture_screenshot_as_bytes W url mobile_view)
     = Ok (match render_outcome W (chrome_options mobile_view) url with
           | Ok png => Some png
           | Raise _ => None
           end)) /\
  exists r,
    value (process_row W index row) = Ok r /\
    similarity vp r = 0%Q /\
    match value (process_row_body W index row) with
    | Ok _ => scored_normally W (other vp) acquired r
    | Raise _ => similarity (other vp) r = 0%Q
    end.
Proof.
  intros Hacq Hsite. split.
  - intros url mobile_view. apply capture_value_after_launch.
  - apply viewport_without_pair; auto.
Qed.

Lemma render_failure_viewport_witness :
  (forall url mobile_view,
     chrome_launch (Demo.world Demo.MobilePageFails) (chrome_options mobile_view) = Ok tt ->
     value (capture_screenshot_as_bytes (Demo.world Demo.MobilePageFails) url mobile_view)
     = Ok (match render_outcome (Demo.world Demo.MobilePageFails)
                   (chrome_options mobile_view) url with
           | Ok png => Some png
           | Raise _ => None
           end)) /\
  exists r,
    value (process_row (Demo.world Demo.MobilePageFails) 0 Demo.good_row) = Ok r /\
    similarity Mobile r = 0%Q /\
    match value (process_row_body (Demo.world Demo.MobilePageFails) 0 Demo.good_row) with
    | Ok _ =>
        scored_normally (Demo.world Demo.MobilePageFails) (other Mobile)
          (Some Demo.png, Some Demo.png, None, Some Demo.png) r
    | Raise _ => similarity (other Mobile) r = 0%Q
    end.
Proof.
  apply (render_failure_viewport (Demo.world Demo.MobilePageFails) 0 Demo.good_row
           (Some Demo.png, Some Demo.png, None, Some Demo.png) Mobile);
    reflexivity.
Defined.

Example page_error_row :
  value (process_row (Demo.world Demo.MobilePageFails) 0 Demo.good_row)
  = Ok (0, 100 # 1)%Q.
Proof. vm_compute. reflexivity. Qed.

Lemma fetch_failure_viewport_witness :
  exists r,
    value (process_row (Demo.world Demo.NoFault) 3 Demo.half_row) = Ok r /\
    similarity Mobile r = 0%Q /\
    match value (process_row_body (Demo.world Demo.NoFault) 3 Demo.half_row) with
    | Ok _ =>
        scored_normally (Demo.world Demo.NoFault) (other Mobile)
          (None, Some Demo.png, Some Demo.png, Some Demo.png) r
    | Raise _ => similarity (other Mobile) r = 0%Q
    end.
Proof.
  apply (fetch_failure_viewport (Demo.world Demo.NoFault) 3 Demo.half_row
           (None, Some Demo.png, Some Demo.png, Some Demo.png) Mobile Demo.png);
    reflexivity.
Defined.

(** On a full disk the row of [Demo.half_row] has its mobile reference
    missing, its mobile capture present, and a desktop reference and capture
    that score 100.0 against each other; yet the row's desktop similarity is
    0.0, because writing the mobile screenshot raised. *)
Lemma viewports_independent_fails :
  ~ viewports_independent (Demo.world Demo.DiskFull) 3 Demo.half_row.
Proof.
  intros H.
  destruct (H (None, Some Demo.png, Some Demo.png, Some Demo.png) Mobile Demo.png)
    as (r & Hrow & _ & Hother); try reflexivity.
  assert (Er : r = (0, 0)%Q).
  { assert (E : value (process_row (Demo.world Demo.DiskFull) 3 Demo.half_row) = Ok (0, 0)%Q)
      by (vm_compute; reflexivity).
    rewrite E in Hrow. now injection Hrow as <-. }
  subst r. vm_compute in Hother. discriminate Hother.
Qed.

(** C5. When persisting the screenshots of a row raises - the directory
    cannot be created or a captured screenshot cannot be written - the error
    is printed with the row's index and nothing leaves [process_row]; the
    row's result is (0.0, 0.0), whatever the images in memory would score. *)
Theorem persist_error_zeroes_row (W : World) (index : nat) (row : Row)
    (mobile_ref desktop_ref mobile_site desktop_site : option bytes) (e : exn) :
  value (acquire W row) = Ok (mobile_ref, desktop_ref, mobile_site, desktop_site) ->
  value (persist W index mobile_site desktop_site) = Raise e ->
  value (process_row W index row) = Ok (0, 0)%Q /\
  exists t,
    trace (process_row W index row) =
    t ++ [Print ("Error processing row " +++ string_of_nat index +++ ": " +++ str_exn e)].
Proof.
  intros Hacq Hpersist.
  assert (Hbody : value (process_row_body W index row) = Raise e).
  { rewrite (value_process_row_body W index row _ _ _ _ Hacq). now rewrite Hpersist. }
  split.
  - rewrite value_process_row. now rewrite Hbody.
  - exists (trace (process_row_body W index row)).
    unfold process_row. rewrite trace_try_except, Hbody. reflexivity.
Qed.

Lemma persist_error_zeroes_row_witness :
  value (process_row (Demo.world Demo.DiskFull) 0 Demo.good_row) = Ok (0, 0)%Q /\
  exists t,
    trace (process_row (Demo.world Demo.DiskFull) 0 Demo.good_row) =
    t ++ [Print ("Error processing row " +++ string_of_nat 0 +++ ": " +++ str_exn OSError)].
Proof.
  apply (persist_error_zeroes_row (Demo.world Demo.DiskFull) 0 Demo.good_row
           (Some Demo.png) (Some Demo.png) (Some Demo.png) (Some Demo.png) OSError);
    reflexivity.
Defined.

(** On a full disk the row of [Demo.good_row] acquires both references and
    both captures, the images in memory score (100.0, 100.0), and the row's
    result is (0.0, 0.0). *)
Lemma persistence_harmless_fails :
  ~ persistence_harmless (Demo.world Demo.DiskFull) 0 Demo.good_row.
Proof.
  intros H.
  specialize (H (Some Demo.png) (Some Demo.png) (Some Demo.png) (Some Demo.png) OSError
                eq_refl eq_refl).
  vm_compute in H. discriminate H.
Qed.

Example no_directory_row :
  process_row (Demo.world Demo.NoDirectory) 7 Demo.down_row
  = (Ok (0, 0)%Q,
     trace (acquire (Demo.world Demo.NoDirectory) Demo.down_row)
     ++ [Print "Error processing row 7: os error"]).
Proof. vm_compute. reflexivity. Qed.

Example persist_error_scores :
  value (process_row (Demo.world Demo.DiskFull) 0 Demo.good_row) = Ok (0, 0)%Q /\
  value (score (Demo.world Demo.DiskFull)
           (Some Demo.png) (Some Demo.png) (Some Demo.png) (Some Demo.png))
    = Ok (100 # 1, 100 # 1)%Q /\
  value (process_row (Demo.world Demo.NoFault) 0 Demo.good_row) = Ok (100 # 1, 100 # 1)%Q.
Proof. vm_compute. repeat split. Qed.

(** ** The data frame *)

Lemma row_get_set_same (row : Row) (col : string) (v : cell) :
  row_get (row_set row col v) col = Some v.
Proof.
  induction row as [| [c old] row IH]; simpl.
  - now rewrite String.eqb_refl.
  - destruct (String.eqb c col) eqn:E; simpl; rewrite E; trivial.
Qed.

Lemma row_get_set_other (row : Row) (c col : string) (v : cell) :
  c <> col -> row_get (row_set row c v) col = row_get row col.
Proof.
  intros Hne. induction row as [| [k old] row IH]; simpl.
  - apply String.eqb_neq in Hne. now rewrite Hne.
  - destruct (String.eqb k c) eqn:E; simpl.
    + apply String.eqb_eq in E. subst k.
      apply String.eqb_neq in Hne. now rewrite Hne.
    + now rewrite IH.
Qed.

Lemma at_get_set_same (df : DataFrame) (i : nat) (col : string) (v : cell) :
  at_get (at_set df i col v) i col = Some v.
Proof.
  unfold at_get. induction df as [| [j r] df IH]; simpl.
  - rewrite Nat.eqb_refl. simpl. now rewrite String.eqb_refl.
  - destruct (Nat.eqb j i) eqn:E; simpl; rewrite E; trivial.
    apply row_get_set_same.
Qed.

Lemma at_get_set_other_col (df : DataFrame) (i : nat) (c col : string) (v : cell) :
  c <> col -> at_get (at_set df i c v) i col = at_get df i col.
Proof.
  intros Hne. unfold at_get. induction df as [| [j r] df IH]; simpl.
  - rewrite Nat.eqb_refl. simpl. apply String.eqb_neq in Hne. now rewrite Hne.
  - destruct (Nat.eqb j i) eqn:E; simpl; rewrite E; trivial.
    now apply row_get_set_other.
Qed.

Lemma at_get_set_other_row (df : DataFrame) (i j : nat) (c col : string) (v : cell) :
  i <> j -> at_get (at_set df j c v) i col = at_get df i col.
Proof.
  intros Hne. unfold at_get. induction df as [| [k r] df IH]; simpl.
  - apply Nat.eqb_neq in Hne. rewrite Nat.eqb_sym in Hne. now rewrite Hne.
  - destruct (Nat.eqb k j) eqn:Ekj; simpl.
    + apply Nat.eqb_eq in Ekj. subst k.
      apply Nat.eqb_neq in Hne. rewrite Nat.eqb_sym in Hne. now rewrite Hne.
    + destruct (Nat.eqb k i); trivial.
Qed.

Lemma at_set_labels (df : DataFrame) (i : nat) (c : string) (v : cell) :
  In i (map fst df) -> map fst (at_set df i c v) = map fst df.
Proof.
  induction df as [| [j r] df IH]; simpl; intros Hin.
  - contradiction.
  - destruct (Nat.eqb j i) eqn:E; simpl; trivial.
    destruct Hin as [-> | Hin]; [now rewrite Nat.eqb_refl in E |].
    now rewrite IH.
Qed.

Lemma frame_from_labels (data : list Row) (start : nat) :
  map fst (frame_from start data) = seq start (length data).
Proof.
  revert start. induction data as [| r data IH]; intros start; simpl; trivial.
  now rewrite IH.
Qed.

Lemma frame_from_row (data : list Row) (start i : nat) (row : Row) :
  nth_error data i = Some row -> In (start + i, row) (frame_from start data).
Proof.
  revert start i. induction data as [| r data IH]; intros start [| i] H; simpl in *;
    try discriminate.
  - injection H as ->. left. f_equal. lia.
  - right. replace (start + S i) with (S start + i) by lia. now apply IH.
Qed.

Lemma write_result_other (df : DataFrame) (r : nat * Q * Q) (i : nat) (col : string) :
  i <> result_index r -> at_get (write_result df r) i col = at_get df i col.
Proof.
  destruct r as [[j m] d]. unfold result_index. simpl. intros Hne.
  now rewrite !at_get_set_other_row.
Qed.

Lemma write_result_same (df : DataFrame) (i : nat) (m d : Q) :
  at_get (write_result df (i, m, d)) i "Mobile Match %" = Some (CNum m) /\
  at_get (write_result df (i, m, d)) i "Desktop Match %" = Some (CNum d).
Proof.
  unfold write_result. split.
  - rewrite at_get_set_other_col by discriminate. apply at_get_set_same.
  - apply at_get_set_same.
Qed.

Lemma write_result_labels (df : DataFrame) (r : nat * Q * Q) :
  In (result_index r) (map fst df) -> map fst (write_result df r) = map fst df.
Proof.
  destruct r as [[j m] d]. unfold result_index. simpl. intros Hin.
  rewrite at_set_labels; rewrite at_set_labels; trivial.
Qed.

Lemma update_frame_other (results : list (nat * Q * Q)) (df : DataFrame) (i : nat) (col : string) :
  ~ In i (map result_index results) ->
  at_get (update_frame df results) i col = at_get df i col.
Proof.
  unfold update_frame. revert df.
  induction results as [| r results IH]; intros df Hnot; simpl in *; trivial.
  rewrite IH by tauto. apply write_result_other. intros ->. tauto.
Qed.

(** With one entry per index, the frame ends with each entry in its row,
    wherever the entry stands in [results]. *)
Lemma update_frame_get (results : list (nat * Q * Q)) (df : DataFrame) (i : nat) (m d : Q) :
  NoDup (map result_index results) ->
  In (i, m, d) results ->
  at_get (update_frame df results) i "Mobile Match %" = Some (CNum m) /\
  at_get (update_frame df results) i "Desktop Match %" = Some (CNum d).
Proof.
  revert df. induction results as [| r results IH]; intros df Hnd Hin; simpl in *.
  - contradiction.
  - inversion Hnd as [| x l Hnotin Hnd']; subst.
    destruct Hin as [-> | Hin].
    + fold (update_frame (write_result df (i, m, d)) results).
      rewrite !update_frame_other by exact Hnotin.
      apply write_result_same.
    + now apply IH.
Qed.

Lemma update_frame_labels (results : list (nat * Q * Q)) (df : DataFrame) :
  (forall r, In r results -> In (result_index r) (map fst df)) ->
  map fst (update_frame df results) = map fst df.
Proof.
  unfold update_frame. revert df.
  induction results as [| r results IH]; intros df Hin; simpl in *; trivial.
  rewrite IH.
  - apply write_result_labels. auto.
  - intros r' Hr'. rewrite write_result_labels; auto.
Qed.

(** ** The coordinator *)

(** The future of a row and the index it is filed under (line 118). *)
Lemma submit_rows_value (W : World) (rows : list (nat * Row)) :
  value (submit_rows W rows)
  = Ok (map (fun ir => (value (process_row W (fst ir) (snd ir)), fst ir)) rows).
Proof.
  induction rows as [| [index row] rows IH]; cbn [submit_rows map]; trivial.
  rewrite value_bind, value_submit, value_bind, IH. reflexivity.
Qed.

(** The loop of lines 119-124 appends the result of every future that
    returns and skips every future that raises. *)
Lemma collect_value (done : list (future (Q * Q) * nat)) (results : list (nat * Q * Q)) :
  value (collect done results) = Ok (results ++ flat_map collected done).
Proof.
  revert results.
  induction done as [| [f index] done IH]; intros results; cbn [collect flat_map].
  - now rewrite app_nil_r.
  - rewrite value_bind, value_try_except. unfold future_result.
    rewrite value_bind, value_lift. unfold collected at 1. cbn [fst snd].
    destruct f as [r | e].
    + change (value (ret (results ++ [(index, fst r, snd r)])))
        with (Ok (A := list (nat * Q * Q)) (results ++ [(index, fst r, snd r)])).
      cbv iota beta. rewrite IH. now rewrite <- app_assoc.
    + rewrite value_bind.
      change (value (print ("Error in row " +++ string_of_nat index +++ ": " +++ str_exn e)))
        with (Ok tt).
      change (value (ret (A := list (nat * Q * Q)) results)) with (Ok results).
      cbv iota beta. now rewrite IH.
Qed.

(** The future of a row always holds a pair: nothing is skipped. *)
Lemma collected_row (W : World) (ir : nat * Row) :
  exists m d,
    value (process_row W (fst ir) (snd ir)) = Ok (m, d) /\
    collected (value (process_row W (fst ir) (snd ir)), fst ir) = [(fst ir, m, d)].
Proof.
  unfold collected. simpl. rewrite value_process_row.
  destruct (value (process_row_body W (fst ir) (snd ir))) as [[m d] | e].
  - now exists m, d.
  - now exists 0%Q, 0%Q.
Qed.

Lemma as_completed_map {A B} (g : A -> B) (l : list A) (order : list nat) :
  as_completed (map g l) order = map g (as_completed l order).
Proof.
  unfold as_completed. induction order as [| k order IH]; simpl; trivial.
  rewrite map_app, IH, nth_error_map. now destruct (nth_error l k).
Qed.

Lemma as_completed_in_order {A} (pre l : list A) :
  as_completed (pre ++ l) (seq (length pre) (length l)) = l.
Proof.
  unfold as_completed. revert pre. induction l as [| x l IH]; intros pre; simpl; trivial.
  rewrite nth_error_app2, Nat.sub_diag by lia. simpl. f_equal.
  specialize (IH (pre ++ [x])).
  rewrite <- app_assoc, length_app, Nat.add_1_r in IH. exact IH.
Qed.

(** Whatever the completion order, every future comes out once. *)
Lemma as_completed_permutation {A} (l : list A) (order : list nat) :
  Permutation order (seq 0 (length l)) -> Permutation (as_completed l order) l.
Proof.
  intros Hperm.
  rewrite <- (as_completed_in_order [] l) at 2.
  unfold as_completed. now apply Permutation_flat_map.
Qed.

Lemma gather_results_value (W : World) (df : DataFrame) (order : list nat) :
  value (gather_results W df order)
  = Ok (flat_map collected
          (map (fun ir => (value (process_row W (fst ir) (snd ir)), fst ir))
               (as_completed df order))).
Proof.
  unfold gather_results, iterrows.
  rewrite value_bind, submit_rows_value, collect_value, as_completed_map. reflexivity.
Qed.

(** The entries gathered from the rows [sel], in the order of [sel]. *)
Lemma gathered_entries (W : World) (sel : list (nat * Row)) :
  let results :=
    flat_map collected (map (fun ir => (value (process_row W (fst ir) (snd ir)), fst ir)) sel) in
  map result_index results = map fst sel /\
  (forall i row, In (i, row) sel ->
     exists m d, value (process_row W i row) = Ok (m, d) /\ In (i, m, d) results).
Proof.
  induction sel as [| ir sel [IHidx IHin]]; simpl.
  - split; [trivial | contradiction].
  - destruct (collected_row W ir) as (m & d & Hval & Hcol).
    rewrite Hcol. simpl. split.
    + unfold result_index at 1. simpl. now rewrite IHidx.
    + intros i row [-> | Hin].
      * exists m, d. simpl in Hval. split; [exact Hval | now left].
      * destruct (IHin i row Hin) as (m' & d' & Hval' & Hin'). exists m', d'. auto.
Qed.

(** C1. A sheet of N rows, any completion order: the run gathers N
    entries, their indices are 0 .. N-1 each exactly once, the entry of index
    i carries the pair [process_row] returns for row i, and the frame handed
    to [worksheet.update] keeps the rows in their original order with that
    pair in the two similarity columns of row i. *)
Theorem run_one_result_per_row (W : World)
    (sheet_url credentials_path local_excel_path : string)
    (data : list Row) (order : list nat) :
  authorize W credentials_path = Ok tt ->
  get_all_records W sheet_url = Ok data ->
  Permutation order (seq 0 (length data)) ->
  exists results,
    value (gather_results W (pd_DataFrame data) order) = Ok results /\
    In (WorksheetUpdate (update_frame (pd_DataFrame data) results))
       (trace (process_google_sheet W sheet_url credentials_path local_excel_path order)) /\
    length results = length data /\
    NoDup (map result_index results) /\
    Permutation (map result_index results) (seq 0 (length data)) /\
    map fst (update_frame (pd_DataFrame data) results) = seq 0 (length data) /\
    forall i row, nth_error data i = Some row ->
      exists m d,
        value (process_row W i row) = Ok (m, d) /\
        In (i, m, d) results /\
        at_get (update_frame (pd_DataFrame data) results) i "Mobile Match %" = Some (CNum m) /\
        at_get (update_frame (pd_DataFrame data) results) i "Desktop Match %" = Some (CNum d).
Proof.
  intros Hauth Hread Horder.
  set (df := pd_DataFrame data).
  assert (Hlabels : map fst df = seq 0 (length data)) by apply frame_from_labels.
  assert (Hlen : length df = length data).
  { rewrite <- (length_map fst df), Hlabels. apply length_seq. }
  rewrite <- Hlen in Horder.
  pose proof (as_completed_permutation df order Horder) as Hsel.
  destruct (gathered_entries W (as_completed df order)) as [Hidx Hin].
  set (results := flat_map collected
     (map (fun ir => (value (process_row W (fst ir) (snd ir)), fst ir))
          (as_completed df order))) in *.
  assert (Hgather : value (gather_results W df order) = Ok results)
    by apply gather_results_value.
  assert (Hperm : Permutation (map result_index results) (seq 0 (length data))).
  { rewrite Hidx, <- Hlabels. now apply Permutation_map. }
  assert (Hnodup : NoDup (map result_index results)).
  { apply (Permutation_NoDup (Permutation_sym Hperm)). apply seq_NoDup. }
  exists results. repeat split; trivial.
  - unfold process_google_sheet, gspread_authorize, worksheet_get_all_records.
    apply (in_trace_bind _ _ tt); [exact Hauth |].
    apply (in_trace_bind _ _ tt); [reflexivity |].
    apply (in_trace_bind _ _ data); [exact Hread |].
    apply (in_trace_bind _ _ results); [exact Hgather |].
    unfold worksheet_update.
    match goal with
    | |- In _ (trace (bind (bind (emit ?ev) ?k1) ?k2)) =>
        rewrite (trace_bind (bind (emit ev) k1) k2);
        destruct (value (bind (emit ev) k1));
        [apply in_or_app; left |]; apply in_trace_emit_bind
    end.
  - rewrite <- (length_map result_index results), (Permutation_length Hperm).
    apply length_seq.
  - rewrite update_frame_labels; trivial.
    intros r Hr. rewrite Hlabels.
    apply (Permutation_in _ Hperm). now apply in_map.
  - intros i row Hrow.
    assert (Hdf : In (i, row) df) by (apply (frame_from_row data 0 i row Hrow)).
    destruct (Hin i row (Permutation_in _ (Permutation_sym Hsel) Hdf)) as (m & d & Hval & Hres).
    exists m, d. split; [exact Hval | split; [exact Hres |]].
    now apply update_frame_get.
Qed.

Lemma run_one_result_per_row_witness :
  exists results,
    value (gather_results (Demo.world Demo.NoFault) (pd_DataFrame Demo.sheet) [2; 0; 1])
      = Ok results /\
    In (WorksheetUpdate (update_frame (pd_DataFrame Demo.sheet) results))
       (trace (process_google_sheet (Demo.world Demo.NoFault) "sheet" "key.json" "out.xlsx"
                 [2; 0; 1])) /\
    length results = length Demo.sheet /\
    NoDup (map result_index results) /\
    Permutation (map result_index results) (seq 0 (length Demo.sheet)) /\
    map fst (update_frame (pd_DataFrame Demo.sheet) results) = seq 0 (length Demo.sheet) /\
    forall i row, nth_error Demo.sheet i = Some row ->
      exists m d,
        value (process_row (Demo.world Demo.NoFault) i row) = Ok (m, d) /\
        In (i, m, d) results /\
        at_get (update_frame (pd_DataFrame Demo.sheet) results) i "Mobile Match %"
          = Some (CNum m) /\
        at_get (update_frame (pd_DataFrame Demo.sheet) results) i "Desktop Match %"
          = Some (CNum d).
Proof.
  apply (run_one_result_per_row (Demo.world Demo.NoFault) "sheet" "key.json" "out.xlsx"
           Demo.sheet [2; 0; 1]).
  - reflexivity.
  - reflexivity.
  - simpl. apply perm_trans with (l' := [0; 2; 1]).
    + apply perm_swap.
    + apply perm_skip, perm_swap.
Defined.

Example run_out_of_order :
  value (gather_results (Demo.world Demo.NoFault) (pd_DataFrame Demo.sheet) [2; 0; 1])
  = Ok [(2, 0%Q, 0%Q); (0, (100 # 1)%Q, (100 # 1)%Q); (1, 0%Q, (100 # 1)%Q)].
Proof. vm_compute. reflexivity. Qed.

Example run_frame_row_1 :
  at_get (update_frame (pd_DataFrame Demo.sheet)
            [(2, 0%Q, 0%Q); (0, (100 # 1)%Q, (100 # 1)%Q); (1, 0%Q, (100 # 1)%Q)])
         1 "Desktop Match %"
  = Some (CNum (100 # 1)).
Proof. reflexivity. Qed.

(** ** Properties of whole runs *)

(** A property of event lists that holds of the empty list and of
    concatenations carries over from the steps of a computation to the
    computation. *)
Section TraceInvariant.

Variable P : list event -> Prop.
Hypothesis P_nil : P [].
Hypothesis P_app : forall t1 t2, P t1 -> P t2 -> P (t1 ++ t2).

Lemma inv_bind {A B} (m : M A) (k : A -> M B) :
  P (trace m) -> (forall a, P (trace (k a))) -> P (trace (bind m k)).
Proof.
  intros Hm Hk. rewrite trace_bind. destruct (value m); auto.
Qed.

Lemma inv_try_except {A} (m : M A) (h : exn -> M A) :
  P (trace m) -> (forall e, P (trace (h e))) -> P (trace (try_except m h)).
Proof.
  intros Hm Hh. rewrite trace_try_except. destruct (value m); auto.
Qed.

Lemma inv_lift {A} (r : result A) : P (trace (lift r)).
Proof. exact P_nil. Qed.

Lemma inv_ret {A} (a : A) : P (trace (ret a)).
Proof. exact P_nil. Qed.

Variable W : World.
Hypothesis P_print : forall msg, P [Print msg].
Hypothesis P_http : forall url timeout, P [HttpGet url timeout].
Hypothesis P_mkdir : forall dir, P [MakeDirs dir].
Hypothesis P_write : forall path data, P [FileWrite path data].
Hypothesis P_capture :
  forall url mobile_view, P (trace (capture_screenshot_as_bytes W url mobile_view)).

Lemma inv_print_ret {A} (msg : string) (a : A) : P (trace (print msg ;; ret a)).
Proof. apply inv_bind; [apply P_print | intros; apply inv_ret]. Qed.

Lemma inv_download (drive_link : cell) : P (trace (download_image_as_bytes W drive_link)).
Proof.
  unfold download_image_as_bytes.
  apply inv_try_except; [| intros; apply inv_print_ret].
  apply inv_bind; [apply inv_lift | intros link].
  apply inv_bind.
  { unfold file_id_of. destruct (contains "drive.google.com" link); [| apply inv_ret].
    apply inv_bind; [apply inv_lift | intros].
    apply inv_bind; [apply inv_lift | intros; apply inv_ret]. }
  intros file_id. apply inv_bind.
  { unfold requests_get. apply inv_bind; [apply P_http | intros; apply inv_lift]. }
  intros response. apply inv_bind.
  { unfold raise_for_status. destruct (_ && _)%bool; exact P_nil. }
  intros _. apply inv_bind; [apply inv_lift | intros; apply inv_ret].
Qed.

Lemma inv_persist (index : nat) (mobile_site desktop_site : option bytes) :
  P (trace (persist W index mobile_site desktop_site)).
Proof.
  assert (Hsave : forall path site, P (trace (save_if_captured W path site))).
  { intros path [data |]; cbn [save_if_captured]; [| apply inv_ret].
    unfold open_write. apply inv_bind; [apply inv_lift | intros; apply P_write]. }
  unfold persist. apply inv_bind.
  - unfold makedirs. apply inv_bind; [apply inv_lift | intros; apply P_mkdir].
  - intros _. apply inv_bind; intros; apply Hsave.
Qed.

Lemma inv_compare (img1_bytes img2_bytes : bytes) :
  P (trace (compare_images_bytes W img1_bytes img2_bytes)).
Proof.
  unfold compare_images_bytes.
  apply inv_bind; [apply inv_lift | intros img1].
  apply inv_bind; [apply inv_lift | intros img2].
  destruct img1, img2; try apply inv_ret.
  apply inv_bind; [apply inv_lift | intros].
  apply inv_bind; [apply inv_lift | intros; apply inv_ret].
Qed.

Lemma inv_process_row (index : nat) (row : Row) : P (trace (process_row W index row)).
Proof.
  assert (Hsim : forall ref site, P (trace (similarity_of W ref site))).
  { intros [r |] [s |]; cbn [similarity_of]; try apply inv_ret. apply inv_compare. }
  unfold process_row. apply inv_try_except; [| intros; apply inv_print_ret].
  unfold process_row_body. apply inv_bind.
  - unfold acquire.
    do 4 (apply inv_bind; [apply inv_lift | intros]).
    do 2 (apply inv_bind; [apply inv_download | intros]).
    do 2 (apply inv_bind; [apply P_capture | intros]).
    do 4 (apply inv_bind; [apply inv_lift | intros]).
    apply inv_ret.
  - intros [[[mobile_ref desktop_ref] mobile_site] desktop_site].
    apply inv_bind; [apply inv_persist | intros _].
    unfold score. do 2 (apply inv_bind; [apply Hsim | intros]). apply inv_ret.
Qed.

Lemma inv_gather_results (df : DataFrame) (order : list nat) :
  P (trace (gather_results W df order)).
Proof.
  unfold gather_results. apply inv_bind.
  - unfold iterrows. induction df as [| [index row] df IH]; cbn [submit_rows].
    + apply inv_ret.
    + apply inv_bind; [apply inv_process_row | intros].
      apply inv_bind; [exact IH | intros; apply inv_ret].
  - intros futures. generalize (as_completed futures order) (@nil (nat * Q * Q)).
    intros done. induction done as [| [f index] done IH]; intros results; cbn [collect].
    + apply inv_ret.
    + apply inv_bind; [| intros; apply IH].
      apply inv_try_except; [| intros; apply inv_print_ret].
      apply inv_bind; [apply inv_lift | intros; apply inv_ret].
Qed.

End TraceInvariant.

(** Every path through a capture, with the events it leaves. *)
Lemma capture_cases (W : World) (url : string) (mobile_view : bool) :
  capture_screenshot_as_bytes W url mobile_view =
  let d := chrome_options mobile_view in
  match chrome_launch W d with
  | Raise e => (Raise e, [])
  | Ok _ =>
      match page_load W d url with
      | Raise e =>
          (Ok None,
           [ChromeStart d; DriverGet d url;
            Print ("Error capturing screenshot: " +++ str_exn e); ChromeQuit d])
      | Ok _ =>
          match body_wait W d url 10 with
          | Raise e =>
              (Ok None,
               [ChromeStart d; DriverGet d url; WaitBody d 10;
                Print ("Error capturing screenshot: " +++ str_exn e); ChromeQuit d])
          | Ok _ =>
              match take_png W d url with
              | Raise e =>
                  (Ok None,
                   [ChromeStart d; DriverGet d url; WaitBody d 10; Screenshot d;
                    Print ("Error capturing screenshot: " +++ str_exn e); ChromeQuit d])
              | Ok png =>
                  (Ok (Some png),
                   [ChromeStart d; DriverGet d url; WaitBody d 10; Screenshot d;
                    ChromeQuit d])
              end
          end
      end
  end.
Proof.
  cbv zeta. set (d := chrome_options mobile_view).
  unfold capture_screenshot_as_bytes, webdriver_Chrome, driver_get, wait_until_body,
    get_screenshot_as_png, driver_quit.
  fold d.
  unfold try_finally, try_except, bind, lift, emit, print, ret.
  destruct (chrome_launch W d) as [[] | e0]; simpl; trivial.
  destruct (page_load W d url) as [[] | e1]; simpl; trivial.
  destruct (body_wait W d url 10) as [[] | e2]; simpl; trivial.
  destruct (take_png W d url) as [png | e3]; reflexivity.
Qed.

Lemma capture_balanced (W : World) (url : string) (mobile_view : bool)
    (live : list ChromeOptions) :
  holding (trace (capture_screenshot_as_bytes W url mobile_view)) live = live.
Proof.
  rewrite capture_cases. cbv zeta.
  destruct (chrome_launch W _) as [[] | e0]; trivial.
  destruct (page_load W _ url) as [[] | e1];
    [destruct (body_wait W _ url 10) as [[] | e2];
     [destruct (take_png W _ url) as [png | e3] |] |];
    unfold trace; simpl; now rewrite options_eqb_refl.
Qed.

Lemma capture_no_sheet_event (W : World) (url : string) (mobile_view : bool) :
  forallb (fun ev => negb (is_sheet_event ev))
          (trace (capture_screenshot_as_bytes W url mobile_view)) = true.
Proof.
  rewrite capture_cases. cbv zeta.
  destruct (chrome_launch W _) as [[] | e0]; trivial.
  destruct (page_load W _ url) as [[] | e1];
    [destruct (body_wait W _ url 10) as [[] | e2];
     [destruct (take_png W _ url) as [png | e3] |] |]; reflexivity.
Qed.

(** The events of a whole run, when the sheet can be read: the greeting,
    the events of the rows, then what the write-back leaves. *)
Lemma process_google_sheet_trace (W : World)
    (sheet_url credentials_path local_excel_path : string)
    (data : list Row) (order : list nat) :
  authorize W credentials_path = Ok tt ->
  get_all_records W sheet_url = Ok data ->
  exists results,
    value (gather_results W (pd_DataFrame data) order) = Ok results /\
    trace (process_google_sheet W sheet_url credentials_path local_excel_path order)
    = Print "Connecting to Google Sheet..."
      :: trace (gather_results W (pd_DataFrame data) order)
      ++ write_back_events W local_excel_path (update_frame (pd_DataFrame data) results).
Proof.
  intros Hauth Hread.
  pose proof (gather_results_value W (pd_DataFrame data) order) as Hval.
  eexists. split; [exact Hval |].
  unfold process_google_sheet, gspread_authorize, worksheet_get_all_records,
    worksheet_update, to_excel, write_back_events.
  rewrite Hauth. unfold bind at 1. unfold lift at 1.
  unfold bind at 1. unfold print at 1, emit at 1.
  unfold bind at 1. unfold lift at 1. rewrite Hread. cbv zeta.
  destruct (gather_results W (pd_DataFrame data) order) as [r t].
  unfold value in Hval. simpl in Hval. subst r.
  unfold bind, lift, emit, print, ret, trace. simpl.
  destruct (sheet_update W _) as [[] | e1]; simpl.
  2: { now rewrite <- ?app_assoc. }
  destruct (excel_write W local_excel_path _) as [[] | e2]; simpl;
    now rewrite <- ?app_assoc.
Qed.

(** A row, and so a whole run, ends holding the browsers it started with:
    each of the two captures of a row quits the browser it started, and
    nothing else in a run starts one. *)
Theorem run_holds_no_browser (W : World) (index : nat) (row : Row)
    (sheet_url credentials_path local_excel_path : string) (order : list nat)
    (live : list ChromeOptions) :
  holding (trace (process_row W index row)) live = live /\
  holding (trace (process_google_sheet W sheet_url credentials_path local_excel_path order))
          live = live.
Proof.
  assert (Hnil : forall l, holding [] l = l) by reflexivity.
  assert (Happ : forall t1 t2,
             (forall l, holding t1 l = l) -> (forall l, holding t2 l = l) ->
             forall l, holding (t1 ++ t2) l = l).
  { intros t1 t2 H1 H2 l. now rewrite holding_app, H1, H2. }
  split.
  - revert live.
    apply (inv_process_row (fun t => forall l, holding t l = l) Hnil Happ W);
      try (intros; reflexivity).
    intros url mobile_view l. apply capture_balanced.
  - revert live. unfold process_google_sheet.
    apply (inv_bind _ Happ); [intros l; reflexivity | intros _].
    apply (inv_bind _ Happ); [intros l; reflexivity | intros _].
    apply (inv_bind _ Happ); [intros l; reflexivity | intros data].
    apply (inv_bind _ Happ).
    + apply (inv_gather_results _ Hnil Happ W); try (intros; reflexivity).
      intros url mobile_view l. apply capture_balanced.
    + intros results.
      apply (inv_bind _ Happ).
      { apply (inv_bind _ Happ); intros; reflexivity. }
      intros _. apply (inv_bind _ Happ); [intros l; reflexivity | intros _].
      apply (inv_bind _ Happ); [| intros; reflexivity].
      apply (inv_bind _ Happ); intros; reflexivity.
Qed.

(** When the sheet can be read, the frame is sent to the sheet once, after
    every event of the rows, and no row touches the sheet; the local export
    is attempted only after the sheet accepted the update, and its
    confirmation is printed only after the export succeeded. *)
Theorem sheet_written_back_once (W : World)
    (sheet_url credentials_path local_excel_path : string)
    (data : list Row) (order : list nat) :
  authorize W credentials_path = Ok tt ->
  get_all_records W sheet_url = Ok data ->
  exists results rows_trace,
    value (gather_results W (pd_DataFrame data) order) = Ok results /\
    forallb (fun ev => negb (is_sheet_event ev)) rows_trace = true /\
    trace (process_google_sheet W sheet_url credentials_path local_excel_path order)
    = Print "Connecting to Google Sheet..."
      :: rows_trace
      ++ write_back_events W local_excel_path (update_frame (pd_DataFrame data) results).
Proof.
  intros Hauth Hread.
  destruct (process_google_sheet_trace W sheet_url credentials_path local_excel_path
              data order Hauth Hread) as (results & Hval & Htrace).
  exists results, (trace (gather_results W (pd_DataFrame data) order)).
  split; [exact Hval | split; [| exact Htrace]].
  apply (inv_gather_results
           (fun t => forallb (fun ev => negb (is_sheet_event ev)) t = true)); trivial.
  - intros t1 t2 H1 H2. rewrite forallb_app. now rewrite H1, H2.
  - intros. apply capture_no_sheet_event.
Qed.

Lemma sheet_written_back_once_witness :
  exists results rows_trace,
    value (gather_results (Demo.world Demo.NoFault) (pd_DataFrame Demo.sheet) [1; 2; 0])
      = Ok results /\
    forallb (fun ev => negb (is_sheet_event ev)) rows_trace = true /\
    trace (process_google_sheet (Demo.world Demo.NoFault) "sheet" "key.json" "out.xlsx"
             [1; 2; 0])
    = Print "Connecting to Google Sheet..."
      :: rows_trace
      ++ write_back_events (Demo.world Demo.NoFault) "out.xlsx"
           (update_frame (pd_DataFrame Demo.sheet) results).
Proof.
  apply (sheet_written_back_once (Demo.world Demo.NoFault) "sheet" "key.json" "out.xlsx"
           Demo.sheet [1; 2; 0]); reflexivity.
Defined.

(** When the credentials or the sheet cannot be read, the run raises that
    error before any row is submitted: no request, no browser, no file, no
    write-back; a failed authorisation does not even print the greeting. *)
Theorem run_aborts_before_rows (W : World)
    (sheet_url credentials_path local_excel_path : string) (order : list nat) :
  match authorize W credentials_path with
  | Raise e =>
      process_google_sheet W sheet_url credentials_path local_excel_path order
      = (Raise e, [])
  | Ok _ =>
      match get_all_records W sheet_url with
      | Raise e =>
          process_google_sheet W sheet_url credentials_path local_excel_path order
          = (Raise e, [Print "Connecting to Google Sheet..."])
      | Ok data =>
          In (WorksheetUpdate
                (update_frame (pd_DataFrame data)
                   (flat_map collected
                      (map (fun ir => (value (process_row W (fst ir) (snd ir)), fst ir))
                           (as_completed (pd_DataFrame data) order)))))
             (trace (process_google_sheet W sheet_url credentials_path local_excel_path
                       order))
      end
  end.
Proof.
  destruct (authorize W credentials_path) as [[] | e] eqn:Hauth.
  - destruct (get_all_records W sheet_url) as [data | e] eqn:Hread.
    + destruct (process_google_sheet_trace W sheet_url credentials_path local_excel_path
                  data order Hauth Hread) as (results & Hval & ->).
      rewrite gather_results_value in Hval. injection Hval as <-.
      right. apply in_or_app. right. now left.
    + unfold process_google_sheet, gspread_authorize, worksheet_get_all_records.
      now rewrite Hauth, Hread.
  - unfold process_google_sheet, gspread_authorize. now rewrite Hauth.
Qed.

(** ** Screenshots on disk *)

Lemma append_inj_l (a x y : string) : a +++ x = a +++ y -> x = y.
Proof.
  induction a as [| c a IH]; simpl; intros H; [exact H |].
  injection H as H. auto.
Qed.

Lemma length_append (a b : string) :
  String.length (a +++ b) = String.length a + String.length b.
Proof. induction a as [| c a IH]; simpl; [| rewrite IH]; reflexivity. Qed.

Lemma append_inj_r (x y c : string) : x +++ c = y +++ c -> x = y.
Proof.
  revert y. induction x as [| a x IH]; intros [| b y] H; simpl in H; trivial.
  - apply (f_equal String.length) in H. simpl in H. rewrite length_append in H. lia.
  - apply (f_equal String.length) in H. simpl in H. rewrite length_append in H. lia.
  - injection H as -> H. f_equal. auto.
Qed.

Lemma string_of_nat_inj (i j : nat) : string_of_nat i = string_of_nat j -> i = j.
Proof.
  unfold string_of_nat. intros H.
  apply DecimalNat.Unsigned.to_uint_inj.
  apply (f_equal NilEmpty.uint_of_string) in H.
  rewrite !NilEmpty.usu in H. now injection H.
Qed.

Lemma mobile_site_path_inj (W : World) (i j : nat) :
  mobile_site_path W i = mobile_site_path W j -> i = j.
Proof.
  unfold mobile_site_path, os_path_join. intros H.
  apply append_inj_l, append_inj_l, (append_inj_l "mobile_"), append_inj_r in H.
  now apply string_of_nat_inj.
Qed.

Lemma desktop_site_path_inj (W : World) (i j : nat) :
  desktop_site_path W i = desktop_site_path W j -> i = j.
Proof.
  unfold desktop_site_path, os_path_join. intros H.
  apply append_inj_l, append_inj_l, (append_inj_l "desktop_"), append_inj_r in H.
  now apply string_of_nat_inj.
Qed.

Lemma mobile_desktop_paths_differ (W : World) (i j : nat) :
  mobile_site_path W i <> desktop_site_path W j.
Proof.
  unfold mobile_site_path, desktop_site_path, os_path_join. intros H.
  apply append_inj_l, append_inj_l in H. discriminate H.
Qed.

(** The file written by a row is its mobile or its desktop screenshot. *)
Lemma persist_write_path (W : World) (index : nat) (mobile_site desktop_site : option bytes)
    (path : string) (data : bytes) :
  In (FileWrite path data) (trace (persist W index mobile_site desktop_site)) ->
  (path = mobile_site_path W index /\ mobile_site = Some data) \/
  (path = desktop_site_path W index /\ desktop_site = Some data).
Proof.
  unfold persist, makedirs, save_if_captured, open_write.
  fold (mobile_site_path W index). fold (desktop_site_path W index).
  unfold bind, lift, emit, ret, trace.
  destruct (os_makedirs W "website_screenshots") as [[] | e0]; simpl; [| tauto].
  destruct mobile_site as [m |], desktop_site as [d |]; simpl;
    repeat match goal with
           | |- context [file_write W ?p ?b] => destruct (file_write W p b) as [[] | ?]; simpl
           end;
    intros H;
    repeat match type of H with
           | _ \/ _ => destruct H as [H | H]
           | False => contradiction
           | _ = _ => first [discriminate H | injection H as <- <-; auto]
           end.
Qed.

(** What ends up on disk for a row: only screenshots that were captured,
    each under the name of its viewport and row; all of them when the step
    returns; nothing at all when the directory cannot be created. *)
Theorem persist_writes_captures (W : World) (index : nat)
    (mobile_site desktop_site : option bytes) :
  (forall path data,
     In (FileWrite path data) (trace (persist W index mobile_site desktop_site)) ->
     (path = mobile_site_path W index /\ mobile_site = Some data) \/
     (path = desktop_site_path W index /\ desktop_site = Some data)) /\
  match value (persist W index mobile_site desktop_site) with
  | Ok _ =>
      (forall data, mobile_site = Some data ->
         In (FileWrite (mobile_site_path W index) data)
            (trace (persist W index mobile_site desktop_site))) /\
      (forall data, desktop_site = Some data ->
         In (FileWrite (desktop_site_path W index) data)
            (trace (persist W index mobile_site desktop_site)))
  | Raise _ => True
  end /\
  match os_makedirs W "website_screenshots" with
  | Raise e => persist W index mobile_site desktop_site = (Raise e, [])
  | Ok _ => In (MakeDirs "website_screenshots")
               (trace (persist W index mobile_site desktop_site))
  end.
Proof.
  split; [intros path data; apply persist_write_path |].
  unfold persist, makedirs, save_if_captured, open_write.
  fold (mobile_site_path W index). fold (desktop_site_path W index).
  unfold bind, lift, emit, ret, trace, value.
  destruct (os_makedirs W "website_screenshots") as [[] | e0]; simpl; [| tauto].
  destruct mobile_site as [m |], desktop_site as [d |]; simpl;
    repeat match goal with
           | |- context [file_write W ?p ?b] => destruct (file_write W p b) as [[] | ?]; simpl
           end;
    repeat split; trivial; auto;
    intros data H; try discriminate H; injection H as <-; auto.
Qed.

(** No two rows write the same file, and the two screenshots of a row go
    to different files. *)
Theorem screenshot_files_never_collide (W : World) (i j : nat)
    (mobile_i desktop_i mobile_j desktop_j : option bytes)
    (path : string) (data_i data_j : bytes) :
  In (FileWrite path data_i) (trace (persist W i mobile_i desktop_i)) ->
  In (FileWrite path data_j) (trace (persist W j mobile_j desktop_j)) ->
  i = j /\
  (path = mobile_site_path W i /\ mobile_i = Some data_i /\ mobile_j = Some data_j \/
   path = desktop_site_path W i /\ desktop_i = Some data_i /\ desktop_j = Some data_j).
Proof.
  intros Hi Hj.
  apply persist_write_path in Hi. apply persist_write_path in Hj.
  destruct Hi as [[Hpi Hdi] | [Hpi Hdi]], Hj as [[Hpj Hdj] | [Hpj Hdj]]; subst path.
  - apply mobile_site_path_inj in Hpj. subst j. auto.
  - now apply mobile_desktop_paths_differ in Hpj.
  - symmetry in Hpj. now apply mobile_desktop_paths_differ in Hpj.
  - apply desktop_site_path_inj in Hpj. subst j. auto.
Qed.

Lemma screenshot_files_never_collide_witness :
  0 = 0 /\
  ("website_screenshots/mobile_0.png" = mobile_site_path (Demo.world Demo.NoFault) 0 /\
   Some Demo.png = Some Demo.png /\ Some Demo.png = Some Demo.png \/
   "website_screenshots/mobile_0.png" = desktop_site_path (Demo.world Demo.NoFault) 0 /\
   None = Some Demo.png /\ Some Demo.png = Some Demo.png).
Proof.
  apply (screenshot_files_never_collide (Demo.world Demo.NoFault) 0 0
           (Some Demo.png) None (Some Demo.png) (Some Demo.png)
           "website_screenshots/mobile_0.png" Demo.png Demo.png).
  - simpl. right. left. reflexivity.
  - simpl. right. left. reflexivity.
Defined.

(** ** More on the asset fetcher *)

Lemma file_id_of_silent (link : string) : exists r, file_id_of link = (r, []).
Proof.
  unfold file_id_of. destruct (contains "drive.google.com" link); [| now eexists].
  unfold bind, lift, ret.
  destruct (list_getitem (split "/d/" link) 1) as [after | e]; [| now eexists].
  destruct (list_getitem (split "/" after) 0) as [id | e]; now eexists.
Qed.

(** The three ways a download ends: given up before the request, failed
    with the request made, or succeeded. *)
Lemma download_cases (W : World) (drive_link : cell) :
  (exists msg, download_image_as_bytes W drive_link = (Ok None, [Print msg])) \/
  (exists url msg,
     download_image_as_bytes W drive_link = (Ok None, [HttpGet url 10; Print msg])) \/
  (exists url body,
     download_image_as_bytes W drive_link = (Ok (Some body), [HttpGet url 10])).
Proof.
  destruct drive_link as [link | q | z].
  2, 3: left; eexists; reflexivity.
  destruct (file_id_of_silent link) as [[file_id | e] Hid];
    unfold download_image_as_bytes, requests_get, raise_for_status, try_except,
      bind, lift, emit, print, ret, raise; cbn [as_str]; rewrite Hid.
  2: { left. eexists. reflexivity. }
  destruct (http_get W (download_url_of file_id link) 10) as [response | e]; simpl.
  2: { right. left. do 2 eexists. reflexivity. }
  destruct ((400 <=? status_code response) && (status_code response <? 600))%Z; simpl.
  { right. left. do 2 eexists. reflexivity. }
  destruct (content response) as [body | e]; simpl;
    right; [right | left]; do 2 eexists; reflexivity.
Qed.

(** A download never raises, makes at most one request - always with the
    10 second timeout, never a second try - and returns [None] exactly when
    it printed an error line. *)
Theorem download_one_request (W : World) (drive_link : cell) :
  exists o,
    value (download_image_as_bytes W drive_link) = Ok o /\
    length (filter is_http_get (trace (download_image_as_bytes W drive_link))) <= 1 /\
    (forall url timeout,
       In (HttpGet url timeout) (trace (download_image_as_bytes W drive_link)) ->
       timeout = 10) /\
    (o = None <->
     exists msg, In (Print msg) (trace (download_image_as_bytes W drive_link))).
Proof.
  destruct (download_cases W drive_link)
    as [[msg H] | [(url & msg & H) | (url & body & H)]]; rewrite H; unfold value, trace; simpl.
  - exists None. repeat split; auto.
    + intros url timeout [E | []]. discriminate E.
    + intros _. exists msg. now left.
  - exists None. repeat split; auto.
    + intros u timeout [E | [E | []]]; [now injection E | discriminate E].
    + intros _. exists msg. right. now left.
  - exists (Some body). repeat split; auto.
    + intros u timeout [E | []]. now injection E.
    + discriminate.
    + intros [msg [E | []]]. discriminate E.
Qed.

(** A link that does not mention drive.google.com is requested as it is.
    [None] comes back, after one printed line, when the request raises, when
    the status is in 400..599, or when reading the body raises; otherwise the
    body that was read comes back. *)
Theorem download_plain_link (W : World) (link : string) :
  contains "drive.google.com" link = false ->
  download_image_as_bytes W (CStr link) =
  match http_get W link 10 with
  | Raise e =>
      (Ok None, [HttpGet link 10; Print ("Error downloading image: " +++ str_exn e)])
  | Ok response =>
      if ((400 <=? status_code response) && (status_code response <? 600))%Z
      then (Ok None,
            [HttpGet link 10;
             Print ("Error downloading image: "
                    +++ str_exn (HTTPError (status_code response)))])
      else
        match content response with
        | Ok body => (Ok (Some body), [HttpGet link 10])
        | Raise e =>
            (Ok None,
             [HttpGet link 10; Print ("Error downloading image: " +++ str_exn e)])
        end
  end.
Proof.
  intros Hplain.
  assert (Hfile : file_id_of link = ret None) by (unfold file_id_of; now rewrite Hplain).
  unfold download_image_as_bytes, requests_get, raise_for_status, try_except,
    bind, lift, emit, print, raise; cbn [as_str]; rewrite Hfile.
  unfold ret. cbn [download_url_of].
  destruct (http_get W link 10) as [response | e]; simpl; trivial.
  destruct ((400 <=? status_code response) && (status_code response <? 600))%Z;
    simpl; trivial.
  destruct (content response); reflexivity.
Qed.

Lemma download_plain_link_witness :
  download_image_as_bytes (Demo.world Demo.NoFault) (CStr "https://cdn.example/cut.png") =
  match http_get (Demo.world Demo.NoFault) "https://cdn.example/cut.png" 10 with
  | Raise e =>
      (Ok None,
       [HttpGet "https://cdn.example/cut.png" 10;
        Print ("Error downloading image: " +++ str_exn e)])
  | Ok response =>
      if ((400 <=? status_code response) && (status_code response <? 600))%Z
      then (Ok None,
            [HttpGet "https://cdn.example/cut.png" 10;
             Print ("Error downloading image: "
                    +++ str_exn (HTTPError (status_code response)))])
      else
        match content response with
        | Ok body => (Ok (Some body), [HttpGet "https://cdn.example/cut.png" 10])
        | Raise e =>
            (Ok None,
             [HttpGet "https://cdn.example/cut.png" 10;
              Print ("Error downloading image: " +++ str_exn e)])
        end
  end.
Proof.
  apply (download_plain_link (Demo.world Demo.NoFault) "https://cdn.example/cut.png").
  reflexivity.
Defined.

Example download_body_read_fails :
  download_image_as_bytes (Demo.world Demo.NoFault) (CStr "https://cdn.example/cut.png")
  = (Ok None,
     [HttpGet "https://cdn.example/cut.png" 10;
      Print "Error downloading image: request failed"]).
Proof. reflexivity. Qed.

Lemma prefix_append_self (s t : string) : String.prefix s (s +++ t) = true.
Proof.
  induction s as [| a s' IH]; simpl.
  - now destruct t.
  - destruct (ascii_dec a a) as [_ | n]; [exact IH | now destruct n].
Qed.

(** Dropping a separator that was just matched. *)
Lemma split_go_skip (sep x tail cur : string) :
  split_go sep (x +++ tail) (String.length x) cur = split_go sep tail 0 cur.
Proof.
  induction x as [| c x IH]; simpl; trivial.
Qed.

(** The first piece of a split ends where the separator first occurs. *)
Lemma split_go_first (c0 : ascii) (sep' pre tail cur : string) :
  no_early_match (String c0 sep') pre (String c0 sep' +++ tail) = true ->
  split_go (String c0 sep') (pre +++ String c0 sep' +++ tail) 0 cur
  = (cur +++ pre) :: split_go (String c0 sep') tail 0 EmptyString.
Proof.
  revert cur. induction pre as [| c pre IH]; intros cur H.
  - rewrite append_empty_r.
    pose proof (prefix_append_self (String c0 sep') tail) as Hp.
    cbn [append] in *. cbn [split_go]. rewrite Hp.
    cbn [String.length]. rewrite Nat.sub_succ, Nat.sub_0_r.
    now rewrite split_go_skip.
  - cbn [no_early_match] in H. apply andb_prop in H as [Hhere Hrest].
    apply negb_true_iff in Hhere.
    specialize (IH (cur +++ String c EmptyString) Hrest).
    cbn [append] in *. cbn [split_go]. rewrite Hhere.
    rewrite IH. now rewrite append_snoc.
Qed.

Lemma no_slash_no_early_match (id rest : string) :
  contains "/" id = false -> no_early_match "/" id rest = true.
Proof.
  induction id as [| c id IH]; intros H; trivial.
  cbn [contains] in H. apply orb_false_elim in H as [Hhere Hrest].
  cbn [no_early_match]. rewrite (IH Hrest), andb_true_r.
  cbn [String.prefix] in Hhere. cbn [append String.prefix].
  destruct (ascii_dec "/" c); trivial. now destruct id.
Qed.

(** The piece before the first "/" of [id + rest]. *)
Lemma split_slash_head (id rest : string) :
  contains "/" id = false ->
  empty_or_starts_with "/" rest = true ->
  list_getitem (split "/" (id +++ rest)) 0 = Ok id.
Proof.
  intros Hid Hrest. unfold split.
  destruct rest as [| c r].
  - rewrite append_empty_r, (split_go_absent _ _ _ Hid). reflexivity.
  - simpl in Hrest. apply Ascii.eqb_eq in Hrest. subst c.
    change (id +++ String "/" r) with (id +++ "/" +++ r).
    rewrite (split_go_first "/" EmptyString id r EmptyString).
    + reflexivity.
    + now apply no_slash_no_early_match.
Qed.

(** A sharing link [pre/d/id] or [pre/d/id/...] with a single "/d/": the
    file id is [id], and the request goes to the direct-download address of
    that id, not to the link. *)
Theorem sharing_link_rewritten (W : World) (pre id rest : string) :
  contains "drive.google.com" (pre +++ "/d/" +++ id +++ rest) = true ->
  no_early_match "/d/" pre ("/d/" +++ id +++ rest) = true ->
  contains "/d/" (id +++ rest) = false ->
  contains "/" id = false ->
  nonempty id = true ->
  empty_or_starts_with "/" rest = true ->
  file_id_of (pre +++ "/d/" +++ id +++ rest) = ret (Some id) /\
  exists r events,
    download_image_as_bytes W (CStr (pre +++ "/d/" +++ id +++ rest))
    = (r, HttpGet ("https://drive.google.com/uc?id=" +++ id +++ "&export=download") 10
          :: events).
Proof.
  intros Hdrive Hfirst Honly Hid Hnonempty Hrest.
  assert (Hfile : file_id_of (pre +++ "/d/" +++ id +++ rest) = ret (Some id)).
  { unfold file_id_of. rewrite Hdrive. unfold split at 1.
    rewrite (split_go_first "/" "d/" pre (id +++ rest) EmptyString Hfirst).
    rewrite (split_go_absent _ _ _ Honly).
    cbn [list_getitem nth_error append].
    unfold bind at 1. unfold lift at 1.
    rewrite (split_slash_head id rest Hid Hrest). reflexivity. }
  split; [exact Hfile |].
  unfold download_image_as_bytes, requests_get, raise_for_status, try_except,
    bind, lift, emit, print, raise; cbn [as_str]; rewrite Hfile.
  unfold ret. cbn [download_url_of]. rewrite Hnonempty.
  destruct (http_get W _ 10) as [response | e]; simpl.
  - destruct ((400 <=? status_code response) && (status_code response <? 600))%Z;
      simpl; [do 2 eexists; reflexivity |].
    destruct (content response); simpl; do 2 eexists; reflexivity.
  - do 2 eexists; reflexivity.
Qed.

Lemma sharing_link_rewritten_witness :
  file_id_of ("https://drive.google.com/file" +++ "/d/" +++ "FILE1" +++ "/view?usp=sharing")
    = ret (Some "FILE1") /\
  exists r events,
    download_image_as_bytes (Demo.world Demo.NoFault)
      (CStr ("https://drive.google.com/file" +++ "/d/" +++ "FILE1" +++ "/view?usp=sharing"))
    = (r, HttpGet ("https://drive.google.com/uc?id=" +++ "FILE1" +++ "&export=download") 10
          :: events).
Proof.
  apply (sharing_link_rewritten (Demo.world Demo.NoFault)
           "https://drive.google.com/file" "FILE1" "/view?usp=sharing"); reflexivity.
Defined.

(** ** More on the renderer *)

(** The steps of a capture come in order and stop at the first failure:
    the body is awaited only in a page that loaded, the screenshot is taken
    only once the body is there, and a line is printed exactly when the
    capture returns [None]. *)
Theorem capture_steps_in_order (W : World) (url : string) (mobile_view : bool) :
  (forall d timeout,
     In (WaitBody d timeout) (trace (capture_screenshot_as_bytes W url mobile_view)) ->
     page_load W (chrome_options mobile_view) url = Ok tt) /\
  (forall d,
     In (Screenshot d) (trace (capture_screenshot_as_bytes W url mobile_view)) ->
     page_load W (chrome_options mobile_view) url = Ok tt /\
     body_wait W (chrome_options mobile_view) url 10 = Ok tt) /\
  (value (capture_screenshot_as_bytes W url mobile_view) = Ok None <->
   exists msg, In (Print msg) (trace (capture_screenshot_as_bytes W url mobile_view))).
Proof.
  rewrite capture_cases. cbv zeta.
  destruct (chrome_launch W _) as [[] | e0]; unfold value, trace; simpl.
  2: { repeat split; try contradiction; try discriminate. now intros [msg []]. }
  destruct (page_load W _ url) as [[] | e1]; simpl.
  2: { repeat split; trivial.
       - intros d timeout H. decompose [or] H; try discriminate; contradiction.
       - decompose [or] H; try discriminate; contradiction.
       - decompose [or] H; try discriminate; contradiction.
       - intros _. eexists. right. right. left. reflexivity. }
  destruct (body_wait W _ url 10) as [[] | e2]; simpl.
  2: { repeat split; trivial.
       - decompose [or] H; try discriminate; contradiction.
       - intros _. eexists. right. right. right. left. reflexivity. }
  destruct (take_png W _ url) as [png | e3]; simpl.
  - repeat split; trivial; try discriminate.
    intros [msg H]. decompose [or] H; try discriminate; contradiction.
  - repeat split; trivial.
    intros _. eexists. do 4 right. left. reflexivity.
Qed.

(** ** More on the row processor *)

(** A row that lacks one of the three columns, or whose URL cell is a
    number other than zero or a string that [urlparse] refuses, is answered
    (0.0, 0.0) with one printed line: no request is made, no browser started,
    no file written. *)
Theorem incomplete_row_costs_nothing (W : World) (index : nat) (row : Row) :
  row_get row "Mobile Response Link" = None \/
  row_get row "Desktop Response Link" = None \/
  row_get row "Website URL" = None \/
  (exists q, row_get row "Website URL" = Some (CNum q) /\ Qeq_bool q 0 = false) \/
  (exists z, row_get row "Website URL" = Some (CInt z) /\ z <> 0%Z) \/
  (exists url e, row_get row "Website URL" = Some (CStr url) /\ urlparse W url = Raise e) ->
  exists e,
    process_row W index row
    = (Ok (0, 0)%Q,
       [Print ("Error processing row " +++ string_of_nat index +++ ": " +++ str_exn e)]).
Proof.
  intros H.
  assert (Hacq : exists e, acquire W row = (Raise e, [])).
  { unfold acquire, row_getitem, bind, lift.
    destruct (row_get row "Mobile Response Link") as [mobile_link |]; [| now eexists].
    destruct (row_get row "Desktop Response Link") as [desktop_link |]; [| now eexists].
    destruct (row_get row "Website URL") as [url_cell |]; [| now eexists].
    assert (Hurl : exists e, validate_url_cell W url_cell = Raise e).
    { destruct H as [H | [H | [H | [(q & H & Hq) | [(z & H & Hz) | (url & e & H & He)]]]]];
        try discriminate H; injection H as ->; cbn [validate_url_cell].
      - rewrite Hq. now eexists.
      - apply Z.eqb_neq in Hz. rewrite Hz. now eexists.
      - unfold validate_url. rewrite He. now eexists. }
    destruct Hurl as [e ->]. now eexists. }
  destruct Hacq as [e Hacq]. exists e.
  unfold process_row, process_row_body. unfold bind at 1. rewrite Hacq. reflexivity.
Qed.

Lemma incomplete_row_costs_nothing_witness :
  exists e,
    process_row (Demo.world Demo.NoFault) 4
      [("Website URL", CInt 8080); ("Mobile Response Link", CStr "a");
       ("Desktop Response Link", CStr "b")]
    = (Ok (0, 0)%Q,
       [Print ("Error processing row " +++ string_of_nat 4 +++ ": " +++ str_exn e)]).
Proof.
  apply (incomplete_row_costs_nothing (Demo.world Demo.NoFault) 4
           [("Website URL", CInt 8080); ("Mobile Response Link", CStr "a");
            ("Desktop Response Link", CStr "b")]).
  right. right. right. right. left. exists 8080%Z. split; [reflexivity | discriminate].
Defined.

(** A URL cell holding the integer 0 is no error: the row goes on with
    "https://0", fetches both references and starts both browsers. *)
Example zero_url_row :
  validate_url_cell (Demo.world Demo.NoFault) (CInt 0) = Ok "https://0" /\
  validate_url_cell (Demo.world Demo.NoFault) (CNum 0) = Ok "https://0.0" /\
  process_row (Demo.world Demo.NoFault) 0
    [("Website URL", CInt 0); ("Mobile Response Link", CStr "https://cdn.example/ref.png");
     ("Desktop Response Link", CStr "https://cdn.example/ref.png")]
  = (Ok (100 # 1, 100 # 1)%Q,
     [HttpGet "https://cdn.example/ref.png" 10;
      HttpGet "https://cdn.example/ref.png" 10;
      ChromeStart (chrome_options true);
      DriverGet (chrome_options true) "https://0";
      WaitBody (chrome_options true) 10;
      Screenshot (chrome_options true);
      ChromeQuit (chrome_options true);
      ChromeStart (chrome_options false);
      DriverGet (chrome_options false) "https://0";
      WaitBody (chrome_options false) 10;
      Screenshot (chrome_options false);
      ChromeQuit (chrome_options false);
      MakeDirs "website_screenshots";
      FileWrite "website_screenshots/mobile_0.png" Demo.png;
      FileWrite "website_screenshots/desktop_0.png" Demo.png]).
Proof. vm_compute. repeat split. Qed.

(** ** More on URL normalisation *)

(** Normalising twice changes nothing more, as long as [urlparse] sees the
    scheme of the string that was given the "https://" prefix. *)
Theorem validate_url_idempotent (W : World) (url : string) (parsed prefixed : ParseResult) :
  urlparse W url = Ok parsed ->
  urlparse W ("https://" +++ url) = Ok prefixed ->
  scheme prefixed <> EmptyString ->
  exists normalised,
    validate_url W url = Ok normalised /\
    validate_url W normalised = Ok normalised.
Proof.
  intros Hurl Hprefixed Hscheme.
  unfold validate_url. rewrite Hurl.
  destruct (scheme parsed) as [| c sch] eqn:Hs; simpl.
  - exists ("https://" +++ url). split; trivial.
    rewrite Hprefixed. destruct (scheme prefixed); [now destruct Hscheme | reflexivity].
  - exists url. split; trivial. rewrite Hurl, Hs. reflexivity.
Qed.

Lemma validate_url_idempotent_witness :
  exists normalised,
    validate_url (Demo.world Demo.NoFault) "shop.example/cart" = Ok normalised /\
    validate_url (Demo.world Demo.NoFault) normalised = Ok normalised.
Proof.
  apply (validate_url_idempotent (Demo.world Demo.NoFault) "shop.example/cart"
           (mkParse EmptyString "shop.example/cart")
           (mkParse "https" "//shop.example/cart")).
  - reflexivity.
  - reflexivity.
  - discriminate.
Defined.

(** ** More on the coordinator *)

Lemma at_set_comm (df : DataFrame) (i j : nat) (c c' : string) (v v' : cell) :
  i <> j -> In i (map fst df) ->
  at_set (at_set df i c v) j c' v' = at_set (at_set df j c' v') i c v.
Proof.
  intros Hne. induction df as [| [k r] df IH]; simpl; intros Hin; [contradiction |].
  destruct (Nat.eqb k i) eqn:Eki, (Nat.eqb k j) eqn:Ekj; simpl; rewrite ?Eki, ?Ekj; trivial.
  - apply Nat.eqb_eq in Eki, Ekj. congruence.
  - f_equal. apply IH. destruct Hin as [-> | Hin]; trivial.
    now rewrite Nat.eqb_refl in Eki.
Qed.

Lemma at_set_in_labels (df : DataFrame) (i j : nat) (c : string) (v : cell) :
  In i (map fst df) -> In i (map fst (at_set df j c v)).
Proof.
  induction df as [| [k r] df IH]; simpl; intros Hin; [contradiction |].
  destruct (Nat.eqb k j); simpl; tauto.
Qed.

Lemma write_result_comm (df : DataFrame) (x y : nat * Q * Q) :
  result_index x <> result_index y ->
  In (result_index x) (map fst df) ->
  In (result_index y) (map fst df) ->
  write_result (write_result df x) y = write_result (write_result df y) x.
Proof.
  destruct x as [[i m] d], y as [[j m'] d']. unfold result_index, write_result.
  cbn [fst]. intros Hne Hi Hj.
  rewrite (at_set_comm _ i j "Desktop Match %" "Mobile Match %") by
    (trivial; now apply at_set_in_labels).
  rewrite (at_set_comm df i j "Mobile Match %" "Mobile Match %") by trivial.
  rewrite (at_set_comm _ i j "Desktop Match %" "Desktop Match %") by
    (trivial; now do 2 apply at_set_in_labels).
  rewrite (at_set_comm (at_set df j "Mobile Match %" (CNum m')) i j
             "Mobile Match %" "Desktop Match %") by (trivial; now apply at_set_in_labels).
  reflexivity.
Qed.

(** Entries for distinct rows of the frame can be written in any order. *)
Lemma update_frame_permutation (r1 r2 : list (nat * Q * Q)) :
  Permutation r1 r2 ->
  forall df,
    NoDup (map result_index r1) ->
    (forall r, In r r1 -> In (result_index r) (map fst df)) ->
    update_frame df r1 = update_frame df r2.
Proof.
  unfold update_frame.
  induction 1 as [| x l l' Hperm IH | x y l | l l' l'' H1 IH1 H2 IH2];
    intros df Hnd Hin; cbn [fold_left]; trivial.
  - cbn [map] in Hnd. inversion Hnd; subst.
    apply IH; trivial.
    intros r Hr. rewrite write_result_labels; auto using in_eq, in_cons.
  - cbn [map] in Hnd. inversion Hnd as [| a b Hy Hnd']; subst.
    rewrite write_result_comm; auto using in_eq, in_cons.
    intros E. apply Hy. left. now symmetry.
  - rewrite IH1 by trivial. apply IH2.
    + apply (Permutation_NoDup (Permutation_map result_index H1) Hnd).
    + intros r Hr. apply Hin. apply (Permutation_in _ (Permutation_sym H1) Hr).
Qed.

(** The frame written back does not depend on the order in which the rows
    finish: two completion orders gather the same entries, possibly in a
    different order, and produce the same frame, cell for cell. *)
Theorem frame_independent_of_order (W : World) (data : list Row) (order1 order2 : list nat) :
  Permutation order1 (seq 0 (length data)) ->
  Permutation order2 (seq 0 (length data)) ->
  exists results1 results2,
    value (gather_results W (pd_DataFrame data) order1) = Ok results1 /\
    value (gather_results W (pd_DataFrame data) order2) = Ok results2 /\
    Permutation results1 results2 /\
    update_frame (pd_DataFrame data) results1 = update_frame (pd_DataFrame data) results2.
Proof.
  intros H1 H2.
  set (df := pd_DataFrame data).
  assert (Hlabels : map fst df = seq 0 (length data)) by apply frame_from_labels.
  assert (Hlen : length df = length data).
  { rewrite <- (length_map fst df), Hlabels. apply length_seq. }
  rewrite <- Hlen in H1, H2.
  pose proof (as_completed_permutation df order1 H1) as Hsel1.
  pose proof (as_completed_permutation df order2 H2) as Hsel2.
  destruct (gathered_entries W (as_completed df order1)) as [Hidx1 _].
  do 2 eexists. split; [apply gather_results_value | split; [apply gather_results_value |]].
  assert (Hperm : Permutation
            (flat_map collected
               (map (fun ir => (value (process_row W (fst ir) (snd ir)), fst ir))
                    (as_completed df order1)))
            (flat_map collected
               (map (fun ir => (value (process_row W (fst ir) (snd ir)), fst ir))
                    (as_completed df order2)))).
  { apply Permutation_flat_map, Permutation_map.
    apply (perm_trans Hsel1 (Permutation_sym Hsel2)). }
  split; [exact Hperm |].
  apply update_frame_permutation; trivial.
  - rewrite Hidx1. apply (Permutation_NoDup (Permutation_sym (Permutation_map fst Hsel1))).
    rewrite Hlabels. apply seq_NoDup.
  - intros r Hr. apply (in_map result_index) in Hr. rewrite Hidx1 in Hr.
    apply (Permutation_in _ (Permutation_map fst Hsel1) Hr).
Qed.

Lemma frame_independent_of_order_witness :
  exists results1 results2,
    value (gather_results (Demo.world Demo.NoFault) (pd_DataFrame Demo.sheet) [2; 0; 1])
      = Ok results1 /\
    value (gather_results (Demo.world Demo.NoFault) (pd_DataFrame Demo.sheet) [0; 2; 1])
      = Ok results2 /\
    Permutation results1 results2 /\
    update_frame (pd_DataFrame Demo.sheet) results1
    = update_frame (pd_DataFrame Demo.sheet) results2.
Proof.
  apply (frame_independent_of_order (Demo.world Demo.NoFault) Demo.sheet
           [2; 0; 1] [0; 2; 1]).
  - simpl. apply perm_trans with (l' := [0; 2; 1]).
    + apply perm_swap.
    + apply perm_skip, perm_swap.
  - simpl. apply perm_skip, perm_swap.
Defined.

Lemma write_result_keeps_column (df : DataFrame) (r : nat * Q * Q) (i : nat) (col : string) :
  col <> "Mobile Match %" -> col <> "Desktop Match %" ->
  at_get (write_result df r) i col = at_get df i col.
Proof.
  intros Hm Hd. destruct r as [[j m] d]. unfold write_result.
  destruct (Nat.eq_dec i j) as [-> | Hne].
  - rewrite !at_get_set_other_col; auto.
  - rewrite !at_get_set_other_row; auto.
Qed.

(** Writing the results touches nothing but the two similarity columns:
    every other cell of the frame reads as before, and a cell that was not
    there is still not there. *)
Theorem update_frame_keeps_columns (df : DataFrame) (results : list (nat * Q * Q))
    (i : nat) (col : string) :
  col <> "Mobile Match %" ->
  col <> "Desktop Match %" ->
  at_get (update_frame df results) i col = at_get df i col.
Proof.
  intros Hm Hd. unfold update_frame. revert df.
  induction results as [| r results IH]; intros df; cbn [fold_left]; trivial.
  rewrite IH. now apply write_result_keeps_column.
Qed.

Lemma update_frame_keeps_columns_witness :
  at_get (update_frame (pd_DataFrame Demo.sheet) [(1, (7 # 2)%Q, 0%Q); (5, 1%Q, 1%Q)])
         1 "Website URL"
  = at_get (pd_DataFrame Demo.sheet) 1 "Website URL".
Proof.
  apply (update_frame_keeps_columns (pd_DataFrame Demo.sheet)
           [(1, (7 # 2)%Q, 0%Q); (5, 1%Q, 1%Q)] 1 "Website URL"); discriminate.
Defined.

Lemma as_completed_in {A} (l : list A) (order : list nat) (x : A) :
  In x (as_completed l order) -> In x l.
Proof.
  unfold as_completed. intros H. apply in_flat_map in H as (k & _ & Hk).
  destruct (nth_error l k) as [y |] eqn:E; [| contradiction].
  destruct Hk as [<- | []]. now apply nth_error_In in E.
Qed.

Lemma submit_rows_trace (W : World) (rows : list (nat * Row)) :
  trace (submit_rows W rows)
  = flat_map (fun ir => trace (process_row W (fst ir) (snd ir))) rows.
Proof.
  induction rows as [| [index row] rows IH]; cbn [submit_rows flat_map]; trivial.
  rewrite trace_bind, value_submit, trace_bind, submit_rows_value.
  cbn [fst snd]. rewrite IH. unfold submit, ret, trace at 1 3. cbn [snd].
  now rewrite app_nil_r.
Qed.

Lemma collect_silent (done : list (future (Q * Q) * nat)) (results : list (nat * Q * Q)) :
  (forall f index, In (f, index) done -> exists r, f = Ok r) ->
  trace (collect done results) = [].
Proof.
  revert results. induction done as [| [f index] done IH]; intros results Hok;
    cbn [collect]; trivial.
  destruct (Hok f index (in_eq _ _)) as [r ->].
  unfold try_except, future_result, bind at 2, lift, ret.
  unfold bind. cbn [app].
  specialize (IH (results ++ [(index, fst r, snd r)])
                 (fun f' i' H => Hok f' i' (in_cons _ _ _ H))).
  destruct (collect done (results ++ [(index, fst r, snd r)])) as [r' t'].
  unfold trace in *. cbn [snd] in *. now subst t'.
Qed.

(** The coordinator adds no event to those of the rows: for any
    completion order the events of the gathering are the events of the rows
    in submission order, and the "Error in row" line of line 124 is never
    printed. *)
Theorem coordinator_adds_no_event (W : World) (df : DataFrame) (order : list nat) :
  trace (gather_results W df order)
  = flat_map (fun ir => trace (process_row W (fst ir) (snd ir))) df.
Proof.
  unfold gather_results, iterrows.
  rewrite trace_bind, submit_rows_value, submit_rows_trace.
  rewrite collect_silent; [apply app_nil_r |].
  intros f index Hin. apply as_completed_in in Hin.
  apply in_map_iff in Hin as (ir & E & _). injection E as <- _.
  rewrite value_process_row.
  destruct (value (process_row_body W (fst ir) (snd ir))); now eexists.
Qed.

(** An empty sheet: nothing is submitted whatever the order says, and the
    empty frame is written back. *)
Theorem empty_sheet_run (W : World)
    (sheet_url credentials_path local_excel_path : string) (order : list nat) :
  authorize W credentials_path = Ok tt ->
  get_all_records W sheet_url = Ok [] ->
  gather_results W (pd_DataFrame []) order = (Ok [], []) /\
  trace (process_google_sheet W sheet_url credentials_path local_excel_path order)
  = Print "Connecting to Google Sheet..." :: write_back_events W local_excel_path [].
Proof.
  intros Hauth Hread.
  assert (Hgather : gather_results W (pd_DataFrame []) order = (Ok [], [])).
  { assert (Hnone : forall A (o : list nat), as_completed (@nil A) o = []).
    { intros A o. unfold as_completed. induction o as [| k o IH]; simpl; trivial.
      now destruct k. }
    unfold gather_results, pd_DataFrame, iterrows. cbn [frame_from submit_rows].
    unfold bind, ret. now rewrite Hnone. }
  split; [exact Hgather |].
  destruct (process_google_sheet_trace W sheet_url credentials_path local_excel_path
              [] order Hauth Hread) as (results & Hval & ->).
  rewrite Hgather in *. unfold value in Hval. cbn [fst] in Hval. injection Hval as <-.
  reflexivity.
Qed.

Lemma empty_sheet_run_witness :
  gather_results Demo.blank (pd_DataFrame []) [3; 1] = (Ok [], []) /\
  trace (process_google_sheet Demo.blank "sheet" "key.json" "out.xlsx" [3; 1])
  = Print "Connecting to Google Sheet..." :: write_back_events Demo.blank "out.xlsx" [].
Proof.
  apply (empty_sheet_run Demo.blank "sheet" "key.json" "out.xlsx" [3; 1]); reflexivity.
Defined.

(** ** More on the scorer *)

Lemma round_half_even_bounds (a b : Z) (q : Q) :
  (inject_Z a <= q)%Q -> (q <= inject_Z b)%Q -> (a <= round_half_even q <= b)%Z.
Proof.
  intros Ha Hb. unfold round_half_even.
  pose proof (Qfloor_le q) as Hfl.
  assert (Haf : (a <= Qfloor q)%Z).
  { rewrite <- (Qfloor_Z a). now apply Qfloor_resp_le. }
  assert (Hfb : (Qfloor q <= b)%Z).
  { rewrite Zle_Qle. lra. }
  assert (Hstep : (inject_Z (Qfloor q) < q)%Q -> (Qfloor q + 1 <= b)%Z).
  { intros Hlt. assert (Hz : (Qfloor q < b)%Z) by (rewrite Zlt_Qlt; lra). lia. }
  destruct (Qcompare (q - inject_Z (Qfloor q))%Q (1 # 2)%Q) eqn:Hcmp.
  - apply Qeq_alt in Hcmp. destruct (Z.even (Qfloor q)); [lia |].
    split; [lia | apply Hstep; lra].
  - lia.
  - apply Qgt_alt in Hcmp. split; [lia | apply Hstep; lra].
Qed.

(** A score is a number of hundredths between -100 and 100, whenever the
    similarity index lies between -1 and 1: the rounding of line 60 never
    leaves that range, and the 0.0 of line 57 is inside it. *)
Theorem score_range (W : World) (img1_bytes img2_bytes : bytes) (q : Q) :
  (forall x y s, ssim W x y = Ok s -> (-1 <= s /\ s <= 1)%Q) ->
  value (compare_images_bytes W img1_bytes img2_bytes) = Ok q ->
  (-100 <= q /\ q <= 100 /\ exists n : Z, q * 100 == inject_Z n)%Q.
Proof.
  intros Hssim. unfold compare_images_bytes.
  assert (Hzero : (-100 <= 0 /\ 0 <= 100 /\ exists n : Z, 0 * 100 == inject_Z n)%Q).
  { repeat split; try (now compute). now exists 0%Z. }
  rewrite value_bind, value_lift.
  destruct (imdecode W img1_bytes) as [[i1 |] |]; try discriminate;
    rewrite value_bind, value_lift;
    destruct (imdecode W img2_bytes) as [[i2 |] |]; try discriminate;
    try (intros H; injection H as <-; exact Hzero).
  rewrite value_bind, value_lift.
  destruct (cv2_resize W i2 (shape1 i1, shape0 i1)) as [r |]; [| discriminate].
  rewrite value_bind, value_lift.
  destruct (ssim W i1 r) as [s |] eqn:Hs; [| discriminate].
  intros H. injection H as <-.
  destruct (Hssim _ _ _ Hs) as [Hlo Hhi].
  unfold round2.
  destruct (round_half_even_bounds (-10000) 10000 (s * 100 * 100)%Q) as [Hn1 Hn2].
  { change (inject_Z (-10000)) with (-10000 # 1)%Q. clear - Hlo Hhi. lra. }
  { change (inject_Z 10000) with (10000 # 1)%Q. clear - Hlo Hhi. lra. }
  set (n := round_half_even (s * 100 * 100)%Q) in *.
  pose proof (Qred_correct (n # 100)%Q) as Hq.
  repeat split.
  - rewrite Hq. unfold Qle. simpl. lia.
  - rewrite Hq. unfold Qle. simpl. lia.
  - exists n. rewrite Hq. unfold Qeq. simpl. lia.
Qed.

Lemma score_range_witness :
  (-100 <= 100 # 1 /\ 100 # 1 <= 100 /\ exists n : Z, (100 # 1) * 100 == inject_Z n)%Q.
Proof.
  apply (score_range (Demo.world Demo.NoFault) Demo.png Demo.png (100 # 1)%Q).
  - intros x y s. simpl. unfold Demo.demo_ssim.
    destruct (_ || _)%bool; [discriminate |].
    destruct (Demo.raster_eqb x y); intros H; injection H as <-; split; now compute.
  - vm_compute. reflexivity.
Defined.

(** When the body of a row returns, each viewport is scored on its own
    pair: the mobile similarity comes from the mobile reference and the
    mobile capture, the desktop similarity from the desktop reference and the
    desktop capture, and a viewport with a missing side scores 0.0. *)
Theorem row_scores_each_viewport (W : World) (index : nat) (row : Row)
    (acquired : Acquired) (r : Q * Q) :
  value (acquire W row) = Ok acquired ->
  value (process_row_body W index row) = Ok r ->
  value (process_row W index row) = Ok r /\
  scored_normally W Mobile acquired r /\
  scored_normally W Desktop acquired r.
Proof.
  destruct acquired as [[[mobile_ref desktop_ref] mobile_site] desktop_site].
  intros Hacq Hbody. split.
  { rewrite value_process_row. now rewrite Hbody. }
  rewrite (value_process_row_body W index row _ _ _ _ Hacq) in Hbody.
  destruct (value (persist W index mobile_site desktop_site)) as [[] | e]; [| discriminate].
  rewrite value_score in Hbody.
  destruct (value (similarity_of W mobile_ref mobile_site)) as [m |] eqn:Hm; [| discriminate].
  destruct (value (similarity_of W desktop_ref desktop_site)) as [d |] eqn:Hd;
    [| discriminate].
  injection Hbody as <-.
  unfold scored_normally. cbn [reference_of capture_of similarity fst snd].
  split.
  - destruct mobile_ref, mobile_site; cbn [similarity_of] in Hm; trivial;
      now injection Hm.
  - destruct desktop_ref, desktop_site; cbn [similarity_of] in Hd; trivial;
      now injection Hd.
Qed.

Lemma row_scores_each_viewport_witness :
  value (process_row (Demo.world Demo.NoFault) 3 Demo.half_row) = Ok (0, 100 # 1)%Q /\
  scored_normally (Demo.world Demo.NoFault) Mobile
    (None, Some Demo.png, Some Demo.png, Some Demo.png) (0, 100 # 1)%Q /\
  scored_normally (Demo.world Demo.NoFault) Desktop
    (None, Some Demo.png, Some Demo.png, Some Demo.png) (0, 100 # 1)%Q.
Proof.
  apply (row_scores_each_viewport (Demo.world Demo.NoFault) 3 Demo.half_row
           (None, Some Demo.png, Some Demo.png, Some Demo.png) (0, 100 # 1)%Q);
    reflexivity.
Defined.
